(** * app-store-scraper: response normalisation and enrichment orchestration

    A shallow embedding of the extraction layer of the scraper (the
    operations [search], [ratings], [privacy], [app], [versionHistory] and
    [suggest]) together with the properties its specification states.

    Conventions of the embedding
    - a JS string is a [string]; its characters are the code units below 256,
      so the white space of ECMAScript that fits is 9-13, 32 and 160, and no
      string holds a lone surrogate, the one input on which
      [encodeURIComponent] throws;
    - a JS number is [NaN], an infinity, or a double that holds an integer,
      written as that integer ([Z]): [parseInt], the product in [search] and
      the comparator of the sort round as doubles do, and a number is
      printed as [String] prints it; identifiers, page numbers and page
      sizes are integers;
    - a JS object used as a map is a [gmap]; an optional field is an [option];
    - a thrown exception is the [Err] result of the computation, and [await]
      is sequencing in the [IO] monad below, which also records every HTTP
      request handed to the transport;
    - the collaborators that the repository imports but that are not part of
      the extraction layer (transport, HTML/XML/JSON parsers, schema
      validation, the catalogue lookup and the record normaliser) are the
      fields of the class [Platform]. *)

From Stdlib Require Import ZArith Ascii String List Lia.
From stdpp Require Import base option list gmap strings pretty.

Set Warnings "-register-all".

Local Open Scope Z_scope.

(** ** JavaScript primitives used by the sources *)

Module JS.

(** White space and line terminators (the class [\s], and what [trim]
    removes), restricted to code units below 256. *)
Definition is_space (a : ascii) : bool :=
  match a with
  | "009" | "010" | "011" | "012" | "013" | " " | "160" => true
  | _ => false
  end%char.

(** The class [\d]. *)
Definition is_digit (a : ascii) : bool :=
  match a with
  | "0" | "1" | "2" | "3" | "4" | "5" | "6" | "7" | "8" | "9" => true
  | _ => false
  end%char.

(** The value of a digit. *)
Definition digit_value (a : ascii) : Z := Z.of_N (N_of_ascii a) - 48.

(** [trimStart] and [trimEnd] *)
Fixpoint trimStart (s : string) : string :=
  match s with
  | String a s' => if is_space a then trimStart s' else s
  | EmptyString => EmptyString
  end.

Fixpoint trimEnd (s : string) : string :=
  match s with
  | String a s' =>
      match trimEnd s' with
      | EmptyString => if is_space a then EmptyString else String a EmptyString
      | t => String a t
      end
  | EmptyString => EmptyString
  end.

(** [String.prototype.trim] *)
Definition trim (s : string) : string := trimEnd (trimStart s).

(** Truthiness of a string: only the empty string is falsy. *)
Definition truthy (s : string) : bool :=
  match s with EmptyString => false | _ => true end.

(** Truthiness of a string that may be [undefined], and [o || d]. *)
Definition truthy_opt (o : option string) : bool :=
  match o with Some s => truthy s | None => false end.

Definition or_else (o : option string) (d : string) : string :=
  match o with
  | Some s => if truthy s then s else d
  | None => d
  end.

(** The longest prefix of digits, and what follows it. *)
Fixpoint span_digits (s : string) : string * string :=
  match s with
  | String a s' =>
      if is_digit a
      then let '(ds, rest) := span_digits s' in (String a ds, rest)
      else (EmptyString, s)
  | EmptyString => (EmptyString, EmptyString)
  end.

(** The number that a run of digits writes in base ten, after [acc]. *)
Fixpoint decimal (acc : Z) (ds : string) : Z :=
  match ds with
  | String a ds' => decimal (10 * acc + digit_value a) ds'
  | EmptyString => acc
  end.

(** A number as the sources compute with it: [NaN], an infinity, or a
    double that holds an integer, written as that integer. *)
Inductive number : Type :=
| NaN
| Num (z : Z)
| Infinity (negative : bool).

(** [Number.MAX_SAFE_INTEGER]: up to it, every integer is a double. *)
Definition MAX_SAFE_INTEGER : Z := 2 ^ 53 - 1.

(** The double nearest to the integer [z >= 0], as an integer: the 53
    leading bits of [z] are kept, and what is dropped rounds them to
    nearest, a tie to the even one. *)
Definition round_to_double (z : Z) : Z :=
  let excess := Z.log2 z - 52 in
  if excess <=? 0 then z
  else
    let kept := Z.shiftr z excess in
    let dropped := Z.land z (Z.ones excess) in
    let half := Z.shiftl 1 (excess - 1) in
    let kept := if (half <? dropped) || ((dropped =? half) && Z.odd kept)
                then kept + 1 else kept in
    Z.shiftl kept excess.

(** The number value of the mathematical integer [z]: the nearest double,
    an infinity when that needs an exponent above 1023. *)
Definition of_integer (z : Z) : number :=
  let m := round_to_double (Z.abs z) in
  if 1023 <? Z.log2 m then Infinity (z <? 0)
  else Num (if z <? 0 then - m else m).

(** [a * b] on doubles that hold integers. *)
Definition mul (a b : Z) : number := of_integer (a * b).

(** [parseInt(s, 10)]: leading white space is skipped, one sign is read,
    then the longest run of digits, whose value is rounded to a double; no
    digit gives [NaN]. *)
Definition parseInt (s : string) : number :=
  let s1 := trimStart s in
  let '(negative, s2) :=
    match s1 with
    | String "-" r => (true, r)
    | String "+" r => (false, r)
    | _ => (false, s1)
    end%char in
  match span_digits s2 with
  | (EmptyString, _) => NaN
  | (ds, _) => of_integer (if negative then - decimal 0 ds else decimal 0 ds)
  end.

(** The decimal numeral [c] reads back as the double [x]. *)
Definition reads_as (c x : Z) : bool :=
  match of_integer c with
  | Num y => y =? x
  | _ => false
  end.

(** The numeral that [String(x)] writes for a double [x > 0] of [d] digits
    that holds an integer: the one with the fewest significant digits that
    reads back as [x] and, of these, the nearest to [x] (the one whose last
    significant digit is even when two are as near). With [k] significant
    digits the numerals next to [x] are [lo] and [hi]. *)
Fixpoint shortest (x d : Z) (fuel : nat) (k : Z) : Z :=
  match fuel with
  | S fuel' =>
      let p := 10 ^ (d - k) in
      let lo := x / p * p in
      let hi := lo + p in
      match reads_as lo x, reads_as hi x with
      | true, true =>
          if x - lo <? hi - x then lo
          else if hi - x <? x - lo then hi
          else if Z.even (x / p) then lo else hi
      | true, false => lo
      | false, true => hi
      | false, false => shortest x d fuel' (k + 1)
      end
  | O => x
  end.

(** A numeral without its trailing zeros. *)
Fixpoint strip_zeros (s : string) : string :=
  match s with
  | String a s' =>
      match strip_zeros s' with
      | EmptyString => if Ascii.eqb a "0" then EmptyString else String a EmptyString
      | t => String a t
      end
  | EmptyString => EmptyString
  end.

(** The exponential notation of an integer of more than 21 digits. *)
Definition exponential (c : Z) : string :=
  let e := pretty (Z.of_nat (String.length (pretty c)) - 1) in
  match strip_zeros (pretty c) with
  | String a EmptyString => String a ("e+" +:+ e)
  | String a rest => String a ("." +:+ rest +:+ "e+" +:+ e)
  | EmptyString => EmptyString
  end.

(** [String(v)], and [v] inside a template literal. An integer that is
    exact as a double is written in full; a larger one with the fewest
    digits that read back as it, in exponential notation from [1e+21] on. *)
Definition ToString (v : number) : string :=
  match v with
  | NaN => "NaN"
  | Infinity negative => if negative then "-Infinity" else "Infinity"
  | Num z =>
      if Z.abs z <=? MAX_SAFE_INTEGER then pretty z
      else
        let x := Z.abs z in
        let d := Z.of_nat (String.length (pretty x)) in
        let c := shortest x d (Z.to_nat d) 1 in
        (if z <? 0 then "-" else "") +:+ (if c <? 10 ^ 21 then pretty c else exponential c)
  end.

(** [s.match(/\d+/)]: the leftmost longest run of digits, if any. *)
Fixpoint match_digits (s : string) : option string :=
  match s with
  | String a s' =>
      if is_digit a then Some (fst (span_digits s)) else match_digits s'
  | EmptyString => None
  end.

(** [s.toLowerCase()] on code units below 256. *)
Definition lower_char (a : ascii) : ascii :=
  let n := N_of_ascii a in
  if ((65 <=? n) && (n <=? 90) || (192 <=? n) && (n <=? 222) && negb (n =? 215))%N
  then ascii_of_N (n + 32)
  else a.

Fixpoint toLowerCase (s : string) : string :=
  match s with
  | String a s' => String (lower_char a) (toLowerCase s')
  | EmptyString => EmptyString
  end.

(** [s.startsWith(p)] *)
Fixpoint startsWith (p s : string) : bool :=
  match p, s with
  | EmptyString, _ => true
  | String a p', String b s' => if Ascii.eqb a b then startsWith p' s' else false
  | String _ _, EmptyString => false
  end.

(** [s.includes(p)] *)
Fixpoint includes (p s : string) : bool :=
  startsWith p s ||
  match s with
  | String _ s' => includes p s'
  | EmptyString => false
  end.

(** [s.split(c)] for a one-character separator. *)
Fixpoint split_char (c : ascii) (s : string) : list string :=
  match s with
  | String a s' =>
      if Ascii.eqb a c then EmptyString :: split_char c s'
      else match split_char c s' with
           | t :: ts => String a t :: ts
           | [] => [String a EmptyString]
           end
  | EmptyString => [EmptyString]
  end.

(** [s.split(/\s+/)]: [inrun] tells that the previous character was white
    space, so the run it belongs to has already closed a piece. *)
Fixpoint split_spaces_go (inrun : bool) (s : string) : list string :=
  match s with
  | String a s' =>
      if is_space a
      then if inrun then split_spaces_go true s'
           else EmptyString :: split_spaces_go true s'
      else match split_spaces_go false s' with
           | t :: ts => String a t :: ts
           | [] => [String a EmptyString]
           end
  | EmptyString => [EmptyString]
  end.

Definition split_spaces (s : string) : list string := split_spaces_go false s.

(** [s.match(/(\d+)w/)?.[1]]: the first run of digits that a [w] follows. *)
Fixpoint match_width (s : string) : option string :=
  match s with
  | String a s' =>
      if is_digit a
      then match span_digits s with
           | (ds, String b _) => if Ascii.eqb b "w" then Some ds else match_width s'
           | _ => match_width s'
           end
      else match_width s'
  | EmptyString => None
  end.

(** The rest of [s] after the prefix [p], if [s] starts with [p]. *)
Fixpoint strip_prefix (p s : string) : option string :=
  match p, s with
  | EmptyString, _ => Some s
  | String a p', String b s' => if Ascii.eqb a b then strip_prefix p' s' else None
  | String _ _, EmptyString => None
  end.

(** What is left after one or more digits. *)
Definition digits1 (s : string) : option string :=
  match span_digits s with
  | (EmptyString, _) => None
  | (_, rest) => Some rest
  end.

(** [a - b] on numbers, and the sign a comparator result is read for. *)
Definition sub (a b : number) : number :=
  match a, b with
  | Num x, Num y => of_integer (x - y)
  | Infinity s, Num _ => Infinity s
  | Num _, Infinity s => Infinity (negb s)
  | Infinity s, Infinity t => if Bool.eqb s t then NaN else Infinity s
  | NaN, _ | _, NaN => NaN
  end.

(** [v > 0], false on [NaN]. *)
Definition positive (v : number) : bool :=
  match v with
  | Num z => 0 <? z
  | Infinity negative => negb negative
  | NaN => false
  end.

(** [l.sort(cmp)]: stable; [x] stays before [y] unless [cmp x y > 0]. *)
Fixpoint sort_insert {A} (cmp : A -> A -> number) (x : A) (l : list A) : list A :=
  match l with
  | y :: l' => if positive (cmp x y) then y :: sort_insert cmp x l' else x :: l
  | [] => [x]
  end.

Fixpoint sort {A} (cmp : A -> A -> number) (l : list A) : list A :=
  match l with
  | x :: l' => sort_insert cmp x (sort cmp l')
  | [] => []
  end.

End JS.

(** ** Exceptions, and computations that talk to the network *)

(** [new Error(message)] *)
Inductive exn : Type :=
| Error (message : string).

(** What a call gives: the value it returns, or the exception it throws. *)
Inductive result (A : Type) : Type :=
| Ok (a : A)
| Err (e : exn).
Arguments Ok {A} a.
Arguments Err {A} e.

(** Pass-through transport configuration: the headers, which [ratings]
    extends, and every other option, keyed by its name. *)
Record RequestOptions : Type := mkRequestOptions {
  headers : option (gmap string string);
  other_options : gmap string string;
}.

(** One call of [doRequest(url, requestOptions)]. *)
Record request : Type := mkRequest {
  req_url : string;
  req_options : option RequestOptions;
}.

(** A computation sees the requests issued so far, and returns a value or
    throws, together with the requests issued when it is over. *)
Definition IO (A : Type) : Type := list request -> result A * list request.

(** [return a], [throw e] and sequencing. *)
Definition ret {A} (a : A) : IO A := fun log => (Ok a, log).

Definition throw {A} (e : exn) : IO A := fun log => (Err e, log).

Definition bind {A B} (m : IO A) (k : A -> IO B) : IO B :=
  fun log =>
    match m log with
    | (Ok a, log') => k a log'
    | (Err e, log') => (Err e, log')
    end.

(** [try { m } catch { h }] *)
Definition try_catch {A} (m : IO A) (h : exn -> IO A) : IO A :=
  fun log =>
    match m log with
    | (Ok a, log') => (Ok a, log')
    | (Err e, log') => h e log'
    end.

Notation "x <- m ;; k" := (bind m (fun x => k))
  (at level 100, m at next level, right associativity).

(** ** The parsed document and the selector queries (cheerio) *)

Module Dom.

(** A node of the parsed page. *)
Inductive node : Type :=
| Text (data : string)
| Comment (data : string)
| Element (name : string) (attribs : list (string * string)) (children : list node).

(** What [cheerio.load] returns: the top-level nodes of the page. *)
Abbreviation document := (list node).

(** A cheerio object: the selected elements, in document order. *)
Abbreviation selection := (list node).

Definition children (n : node) : list node :=
  match n with
  | Element _ _ c => c
  | _ => []
  end.

(** The value of the attribute [k], if the element has it. *)
Fixpoint getAttribute (k : string) (attribs : list (string * string)) : option string :=
  match attribs with
  | (k', v) :: rest => if String.eqb k k' then Some v else getAttribute k rest
  | [] => None
  end.

(** The text of a node and of its descendants; a comment has none. *)
Fixpoint textContent (n : node) : string :=
  match n with
  | Text d => d
  | Comment _ => EmptyString
  | Element _ _ c =>
      (fix all (l : list node) : string :=
         match l with
         | k :: l' => textContent k +:+ all l'
         | [] => EmptyString
         end) c
  end.

(** [sel.text()]: the texts of the selected elements, joined. *)
Fixpoint text (sel : selection) : string :=
  match sel with
  | n :: sel' => textContent n +:+ text sel'
  | [] => EmptyString
  end.

(** [sel.attr(k)]: the attribute of the first selected element;
    [None] is JavaScript's [undefined]. *)
Definition attr (k : string) (sel : selection) : option string :=
  match sel with
  | Element _ attribs _ :: _ => getAttribute k attribs
  | _ => None
  end.

(** One compound selector: [name.class1.class2[k1=v1][k2=v2]], every
    part optional. *)
Record compound : Type := mkCompound {
  sel_name : option string;
  sel_classes : list string;
  sel_attribs : list (string * string);
}.

(** Compound selectors joined by the descendant combinator (a blank),
    the outermost first. *)
Abbreviation selector := (list compound).

(** [.cls]: [cls] is one of the blank-separated words of the [class]
    attribute. *)
Definition has_class (cls : string) (attribs : list (string * string)) : bool :=
  match getAttribute "class" attribs with
  | Some v => bool_decide (cls ∈ JS.split_spaces v)
  | None => false
  end.

(** The attributes whose values HTML compares without regard to case; the
    query library does the same for them. *)
Definition case_insensitive_attributes : list string :=
  ["accept"; "accept-charset"; "align"; "alink"; "axis"; "bgcolor"; "charset";
   "checked"; "clear"; "codetype"; "color"; "compact"; "declare"; "defer"; "dir";
   "direction"; "disabled"; "enctype"; "face"; "frame"; "hreflang"; "http-equiv";
   "lang"; "language"; "link"; "media"; "method"; "multiple"; "nohref"; "noresize";
   "noshade"; "nowrap"; "readonly"; "rel"; "rev"; "rules"; "scope"; "scrolling";
   "selected"; "shape"; "target"; "text"; "type"; "valign"; "valuetype"; "vlink"].

(** [[k=v]] *)
Definition has_attribute (k v : string) (attribs : list (string * string)) : bool :=
  match getAttribute k attribs with
  | Some v' =>
      if bool_decide (k ∈ case_insensitive_attributes)
      then String.eqb (JS.toLowerCase v') (JS.toLowerCase v)
      else String.eqb v' v
  | None => false
  end.

Definition matches_compound (c : compound) (name : string)
    (attribs : list (string * string)) : bool :=
  match sel_name c with
  | Some t => String.eqb t name
  | None => true
  end
  && forallb (fun cls => has_class cls attribs) (sel_classes c)
  && forallb (fun kv => has_attribute kv.1 kv.2 attribs) (sel_attribs c).

(** [outer] lists the compounds still to be found, the innermost first;
    [ancs] the ancestors, the nearest first. *)
Fixpoint ancestors_match (outer : list compound)
    (ancs : list (string * list (string * string))) : bool :=
  match outer with
  | [] => true
  | c :: outer' =>
      match ancs with
      | a :: ancs' =>
          if matches_compound c a.1 a.2
          then ancestors_match outer' ancs'
          else ancestors_match outer ancs'
      | [] => false
      end
  end.

(** The element matches the last compound of [s], and its ancestors the
    ones before it, in order. *)
Definition matches (s : selector) (ancs : list (string * list (string * string)))
    (name : string) (attribs : list (string * string)) : bool :=
  match rev s with
  | c :: outer => matches_compound c name attribs && ancestors_match outer ancs
  | [] => false
  end.

(** The elements of the subtree at [n] that match [s], in document order;
    [ancs] are the ancestors of [n] inside the context of the query. *)
Fixpoint query (s : selector) (ancs : list (string * list (string * string)))
    (n : node) : selection :=
  match n with
  | Element name attribs c =>
      (if matches s ancs name attribs then [n] else [])
      ++ (fix all (l : list node) : selection :=
            match l with
            | k :: l' => query s ((name, attribs) :: ancs) k ++ all l'
            | [] => []
            end) c
  | _ => []
  end.

Fixpoint query_all (s : selector) (ancs : list (string * list (string * string)))
    (l : list node) : selection :=
  match l with
  | k :: l' => query s ancs k ++ query_all s ancs l'
  | [] => []
  end.

(** [$(s)] on a loaded document. *)
Definition select (s : selector) (d : document) : selection := query_all s [] d.

(** [$(el).find(s)]: the selector is matched inside the context element
    (the query library scopes it to [el]). *)
Definition find (s : selector) (el : node) : selection :=
  query_all s [] (children el).

(** [name], [name.cls], [.cls] and [name[k=v]]. *)
Definition tag (name : string) : compound := mkCompound (Some name) [] [].
Definition tag_class (name cls : string) : compound := mkCompound (Some name) [cls] [].
Definition class (cls : string) : compound := mkCompound None [cls] [].
Definition tag_attr (name k v : string) : compound := mkCompound (Some name) [] [(k, v)].

End Dom.

(** ** Values that come out of the JSON and XML parsers *)

(** A parsed JSON or XML value, before validation. *)
Inductive json : Type :=
| JNull
| JBool (b : bool)
| JNumber (z : Z)
| JString (s : string)
| JArray (items : list json)
| JObject (members : list (string * json)).

(** ** Records of the data model *)

(** Star value to count; a JS object whose keys are numbers. *)
Abbreviation RatingHistogram := (gmap Z JS.number).

Record Ratings : Type := mkRatings {
  ratings_total : JS.number;
  ratings_histogram : RatingHistogram;
}.

(** The canonical record. [app_fields] holds the fields this layer never
    reads or writes (title, description, price, developer, ...). *)
Record App : Type := mkApp {
  id : Z;
  screenshots : list string;
  ipadScreenshots : list string;
  appletvScreenshots : list string;
  histogram : option RatingHistogram;
  app_fields : list (string * json);
}.

(** One validated entry of the catalogue response. *)
Record ITunesAppResponse : Type := mkITunesAppResponse {
  kind : option string;
  trackId : option Z;
  entry_fields : list (string * json);
}.

Record ITunesLookupResponse : Type := mkITunesLookupResponse {
  results : list ITunesAppResponse;
}.

Record VersionHistory : Type := mkVersionHistory {
  versionDisplay : string;
  releaseDate : string;
  releaseNotes : option string;
}.

Record PrivacyType : Type := mkPrivacyType {
  privacyType : string;
  name : string;
  description : string;
  dataCategories : list string;
  purposes : list string;
}.

Record PrivacyDetails : Type := mkPrivacyDetails {
  privacyPolicyUrl : option string;
  privacyTypes : option (list PrivacyType);
}.

Record Suggestion : Type := mkSuggestion {
  term : string;
}.

(** The validated property list of the autocomplete endpoint. A [string]
    field is absent, a scalar or a sequence; [array] is a bare string or an
    object with an optional list of dicts. *)
Inductive StringField : Type :=
| Scalar (s : string)
| Sequence (l : list string).

Record SuggestDict : Type := mkSuggestDict {
  dict_string : option StringField;
}.

Inductive SuggestArray : Type :=
| ArrayString (s : string)
| ArrayObject (dict : option (list SuggestDict)).

Record SuggestPlistDict : Type := mkSuggestPlistDict {
  dict_array : option SuggestArray;
}.

Record SuggestPlist : Type := mkSuggestPlist {
  plist_dict : option SuggestPlistDict;
}.

Record SuggestResponse : Type := mkSuggestResponse {
  plist : option SuggestPlist;
}.

(** ** Options of the public operations *)

Record SearchOptions : Type := mkSearchOptions {
  search_term : string;
  search_num : option Z;
  search_page : option Z;
  search_country : option string;
  search_lang : option string;
  search_idsOnly : bool;
  search_requestOptions : option RequestOptions;
}.

Record RatingsOptions : Type := mkRatingsOptions {
  ratings_id : Z;
  ratings_country : option string;
  ratings_requestOptions : option RequestOptions;
}.

Record AppOptions : Type := mkAppOptions {
  app_id : option Z;
  app_appId : option string;
  app_country : option string;
  app_lang : option string;
  app_ratings : bool;
  app_requestOptions : option RequestOptions;
}.

Record PageOptions : Type := mkPageOptions {
  page_id : Z;
  page_country : option string;
  page_requestOptions : option RequestOptions;
}.

Record SuggestOptions : Type := mkSuggestOptions {
  suggest_term : string;
  suggest_requestOptions : option RequestOptions;
}.

(** The value of [id || appId] that [app] hands to the lookup. *)
Inductive ident : Type :=
| IdNumber (z : Z)
| IdString (s : string)
| IdUndefined.

(** ** The collaborators outside the extraction layer *)

Class Platform : Type := {
  (** the transport: the body it answers, or the exception it throws, for a
      request issued after the given ones *)
  transport : list request -> request -> result string;
  (** [cheerio.load] *)
  cheerio_load : string -> result Dom.document;
  (** [JSON.parse] and [new XMLParser(...).parse] *)
  JSON_parse : string -> result json;
  XMLParser_parse : string -> result json;
  (** [schema.safeParse]: the message of the mismatch, or the typed data *)
  iTunesLookupResponseSchema : json -> string + ITunesLookupResponse;
  suggestResponseSchema : json -> string + SuggestResponse;
  (** common.ts *)
  cleanApp : ITunesAppResponse -> App;
  lookup : ident -> string -> string -> option string -> option RequestOptions -> IO (list App);
  storeId : string -> string;
  validateRequiredField : AppOptions -> list string -> string -> result unit;
  (** the URL encoders of the runtime *)
  URLSearchParams_toString : list (string * string) -> string;
  encodeURIComponent : string -> string;
}.

(** A call that makes no request. *)
Definition lift {A} (r : result A) : IO A := fun log => (r, log).

(** [await doRequest(url, requestOptions)] *)
Definition doRequest `{Platform} (url : string) (requestOptions : option RequestOptions)
    : IO string :=
  fun log => (transport log (mkRequest url requestOptions), log ++ [mkRequest url requestOptions]).

(** ** Array methods *)

(** [l.slice(start, end)], negative indices counting from the end. *)
Definition Array_slice {A} (start end_ : Z) (l : list A) : list A :=
  let len := Z.of_nat (length l) in
  let k := if start <? 0 then Z.max (len + start) 0 else Z.min start len in
  let final := if end_ <? 0 then Z.max (len + end_) 0 else Z.min end_ len in
  take (Z.to_nat (final - k)) (drop (Z.to_nat k) l).

(** [l.reduce((acc, x, index) => f acc x index, init)] from [index] on. *)
Fixpoint Array_reduce {A B} (f : B -> A -> Z -> B) (index : Z) (l : list A) (acc : B) : B :=
  match l with
  | x :: l' => Array_reduce f (index + 1) l' (f acc x index)
  | [] => acc
  end.

(** [params.set(k, v)] on the pairs of a [URLSearchParams]. *)
Fixpoint URLSearchParams_set (k v : string) (params : list (string * string))
    : list (string * string) :=
  match params with
  | (k', v') :: rest =>
      if String.eqb k k'
      then (k, v) :: filter (fun kv => kv.1 ≠ k) rest
      else (k', v') :: URLSearchParams_set k v rest
  | [] => [(k, v)]
  end.

(** ** The operation [search] (search.ts) *)

(** [App[] | number[]] *)
Inductive SearchResult : Type :=
| Apps (apps : list App)
| Ids (ids : list Z).

(** The query parameters that [search] builds, [lang] included when it is
    given. *)
Definition search_params (options : SearchOptions) : list (string * string) :=
  let num := default 50 (search_num options) in
  let page := default 1 (search_page options) in
  let country := default "us" (search_country options) in
  let limit := JS.mul page num in
  let params :=
    [("term", search_term options); ("country", country); ("media", "software");
     ("entity", "software"); ("limit", JS.ToString limit)] in
  match search_lang options with
  | Some lang => if JS.truthy lang then URLSearchParams_set "lang" lang params else params
  | None => params
  end.

Definition search_url `{Platform} (options : SearchOptions) : string :=
  "https://itunes.apple.com/search?" +:+ URLSearchParams_toString (search_params options).

(** [search(options)]. The bounds of the slice are only compared with the
    positions of an array, which are below [2 ^ 32]: there doubles are exact
    and rounding does not move a bound across a position, so the bounds are
    the exact integers. *)
Definition search `{Platform} (options : SearchOptions) : IO SearchResult :=
  let num := default 50 (search_num options) in
  let page := default 1 (search_page options) in
  if negb (JS.truthy (search_term options)) then throw (Error "term is required")
  else
    body <- doRequest (search_url options) (search_requestOptions options) ;;
    parsedData <- lift (JSON_parse body) ;;
    match iTunesLookupResponseSchema parsedData with
    | inl message =>
        throw (Error ("Search API response validation failed: " +:+ message))
    | inr response =>
        let allResults :=
          filter (fun app => kind app = Some "software") (results response) in
        let start := (page - 1) * num in
        let end_ := start + num in
        let paginatedResults := Array_slice start end_ allResults in
        if search_idsOnly options
        then ret (Ids (omap trackId paginatedResults))
        else ret (Apps (map cleanApp paginatedResults))
    end.

(** ** The operation [ratings] (ratings.ts) *)

(** The initial accumulator [{ 1: 0, 2: 0, 3: 0, 4: 0, 5: 0 }]. *)
Definition empty_histogram : RatingHistogram :=
  <[1 := JS.Num 0]> (<[2 := JS.Num 0]> (<[3 := JS.Num 0]> (<[4 := JS.Num 0]>
    (<[5 := JS.Num 0]> ∅)))).

(** [parseRatings(html)] *)
Definition parseRatings `{Platform} (html : string) : result Ratings :=
  match cheerio_load html with
  | Err e => Err e
  | Ok doc =>
      let ratingsMatch :=
        JS.match_digits (Dom.text (Dom.select [Dom.class "rating-count"] doc)) in
      let totalRatings :=
        match ratingsMatch with
        | Some m => if JS.truthy m then JS.parseInt m else JS.Num 0
        | None => JS.Num 0
        end in
      let ratingsByStar :=
        map (fun el => JS.parseInt (Dom.text [el]))
            (Dom.select [Dom.class "vote"; Dom.class "total"] doc) in
      let histogram :=
        Array_reduce
          (fun acc ratingsForStar index =>
             let starRating := 5 - index in
             <[starRating := ratingsForStar]> acc)
          0 ratingsByStar empty_histogram in
      Ok (mkRatings totalRatings histogram)
  end.

(** The options of the ratings request: the caller's, with the storefront
    header added unless the caller set that header. *)
Definition ratings_request_options `{Platform} (country : string)
    (requestOptions : option RequestOptions) : RequestOptions :=
  let storeFront := storeId country in
  let given := default (mkRequestOptions None ∅) requestOptions in
  mkRequestOptions
    (Some (default ∅ (headers given)
           ∪ {[ "X-Apple-Store-Front" := storeFront +:+ ",12" ]}))
    (other_options given).

Definition ratings_url (country : string) (id : Z) : string :=
  "https://itunes.apple.com/" +:+ country +:+ "/customer-reviews/id"
  +:+ JS.ToString (JS.Num id) +:+ "?displayable-kind=11".

(** [ratings(options)]; [!id] holds of the identifier 0. *)
Definition ratings `{Platform} (options : RatingsOptions) : IO Ratings :=
  let id := ratings_id options in
  let country := default "us" (ratings_country options) in
  if id =? 0 then throw (Error "id is required")
  else
    html <- doRequest (ratings_url country id)
              (Some (ratings_request_options country (ratings_requestOptions options))) ;;
    if (String.length html =? 0)%nat then throw (Error "App not found (404)")
    else lift (parseRatings html).

(** ** The operation [privacy] (privacy.ts) *)

(** [dialog[data-testid=dialog]] *)
Definition dialog : Dom.compound := Dom.tag_attr "dialog" "data-testid" "dialog".

(** The [each] loop over the external links: the first link whose label
    contains the phrase sets the URL to its [href] and ends the loop. *)
Fixpoint privacy_policy_link (links : Dom.selection) (privacyPolicyUrl : option string)
    : option string :=
  match links with
  | el :: rest =>
      match Dom.attr "aria-label" [el] with
      | Some ariaLabel =>
          if JS.truthy ariaLabel && JS.includes "Privacy Policy" ariaLabel
          then Dom.attr "href" [el]
          else privacy_policy_link rest privacyPolicyUrl
      | None => privacy_policy_link rest privacyPolicyUrl
      end
  | [] => privacyPolicyUrl
  end.

(** The body of the loop over the category items of one purpose section. *)
Definition privacy_category (purpose : string) (privacyTypes : list PrivacyType)
    (category : Dom.node) : list PrivacyType :=
  let categoryName := JS.trim (Dom.text (Dom.find [Dom.class "category-title"] category)) in
  let dataTypes :=
    fold_left (fun dataTypes li => dataTypes ++ [JS.trim (Dom.text [li])])
      (Dom.find [Dom.class "privacy-data-types"; Dom.tag "li"] category) [] in
  if JS.truthy categoryName && (0 <? length dataTypes)%nat
  then privacyTypes ++
       [ {| privacyType := categoryName;
            name := categoryName;
            description := "Used for " +:+ purpose;
            dataCategories := dataTypes;
            purposes := [purpose] |} ]
  else privacyTypes.

(** The body of the loop over the purpose sections. *)
Definition privacy_section (privacyTypes : list PrivacyType) (section : Dom.node)
    : list PrivacyType :=
  let purpose := JS.trim (Dom.text (Dom.find [Dom.tag "h3"] section)) in
  fold_left (privacy_category purpose)
    (Dom.find [Dom.tag_class "li" "purpose-category"] section) privacyTypes.

(** [privacy] from the loaded page on. *)
Definition privacy_of_document (doc : Dom.document) : PrivacyDetails :=
  let privacyPolicyUrl :=
    privacy_policy_link
      (Dom.select [dialog; Dom.tag_attr "a" "data-test-id" "external-link"] doc) None in
  let privacyTypes :=
    fold_left privacy_section
      (Dom.select [dialog; Dom.tag_class "section" "purpose-section"] doc) [] in
  {| privacyPolicyUrl :=
       if JS.truthy_opt privacyPolicyUrl then privacyPolicyUrl else None;
     privacyTypes :=
       if (0 <? length privacyTypes)%nat then Some privacyTypes else None |}.

(** The address of the detail page of an app. *)
Definition app_page_url (country : string) (id : Z) : string :=
  "https://apps.apple.com/" +:+ country +:+ "/app/id" +:+ JS.ToString (JS.Num id).

(** [privacy(options)] *)
Definition privacy `{Platform} (options : PageOptions) : IO PrivacyDetails :=
  let id := page_id options in
  let country := default "us" (page_country options) in
  if id =? 0 then throw (Error "id is required")
  else
    appPageBody <- doRequest (app_page_url country id) (page_requestOptions options) ;;
    doc <- lift (cheerio_load appPageBody) ;;
    ret (privacy_of_document doc).

(** ** The operation [versionHistory] *)

(** The body of the loop over the article blocks. *)
Definition version_entry (element : Dom.node) : VersionHistory :=
  let releaseNotes :=
    JS.trim (Dom.text (Dom.find [Dom.tag_class "p" "svelte-13339ih"] element)) in
  let versionDisplay :=
    JS.trim (Dom.text (Dom.find [Dom.tag_class "h4" "svelte-13339ih"] element)) in
  let releaseDateRaw :=
    JS.or_else (Dom.attr "datetime" (Dom.find [Dom.tag "time"] element)) "" in
  {| versionDisplay := versionDisplay;
     releaseDate := releaseDateRaw;
     releaseNotes := if JS.truthy releaseNotes then Some releaseNotes else None |}.

(** [dialog[data-testid=dialog] article.svelte-13339ih] *)
Definition version_articles (doc : Dom.document) : Dom.selection :=
  Dom.select [dialog; Dom.tag_class "article" "svelte-13339ih"] doc.

(** [versionHistory] from the loaded page on. *)
Definition versionHistory_of_document (doc : Dom.document) : list VersionHistory :=
  fold_left (fun versions element => versions ++ [version_entry element])
    (version_articles doc) [].

(** [versionHistory(options)] *)
Definition versionHistory `{Platform} (options : PageOptions) : IO (list VersionHistory) :=
  let id := page_id options in
  let country := default "us" (page_country options) in
  if id =? 0 then throw (Error "id is required")
  else
    appPageBody <- doRequest (app_page_url country id) (page_requestOptions options) ;;
    doc <- lift (cheerio_load appPageBody) ;;
    ret (versionHistory_of_document doc).

(** ** The operation [suggest] *)

(** The body of the loop over the dicts. *)
Definition suggest_dict (suggestions : list Suggestion) (dict : SuggestDict)
    : list Suggestion :=
  let strings :=
    match dict_string dict with
    | Some (Sequence l) => map Some l
    | Some (Scalar s) => [Some s]
    | None => [None]
    end in
  match mjoin (head strings) with
  | Some term => if JS.truthy term then suggestions ++ [mkSuggestion term] else suggestions
  | None => suggestions
  end.

(** [suggest] from the validated response on. *)
Definition suggest_of_response (result : SuggestResponse) : list Suggestion :=
  let arrayData :=
    match plist result with
    | Some p => match plist_dict p with
                | Some d => dict_array d
                | None => None
                end
    | None => None
    end in
  match arrayData with
  | Some (ArrayObject (Some dicts)) => fold_left suggest_dict dicts []
  | Some (ArrayObject None) => []
  | Some (ArrayString _) => []
  | None => []
  end.

Definition suggest_url `{Platform} (term : string) : string :=
  "https://search.itunes.apple.com/WebObjects/MZSearchHints.woa/wa/hints?clientApplication=Software&term="
  +:+ encodeURIComponent term.

(** The [console.log] calls of the source write to the console only and are
    left out. *)
Definition suggest `{Platform} (options : SuggestOptions) : IO (list Suggestion) :=
  let term := suggest_term options in
  if negb (JS.truthy term) then throw (Error "term is required")
  else
    body <- doRequest (suggest_url term) (suggest_requestOptions options) ;;
    parsedData <- lift (XMLParser_parse body) ;;
    match suggestResponseSchema parsedData with
    | inl message =>
        throw (Error ("Suggest API response validation failed: " +:+ message))
    | inr result => ret (suggest_of_response result)
    end.

(** ** The operation [app] and its screenshot scraper *)

(** One candidate of a [srcset]. *)
Record srcset_entry : Type := mkEntry {
  entry_url : option string;
  entry_width : JS.number;
}.

(** The body of the [map] over the candidates: the first two
    blank-separated parts are the URL and the width descriptor. *)
Definition parse_srcset_entry (entry : string) : srcset_entry :=
  let parts := JS.split_spaces (JS.trim entry) in
  let url := parts !! 0%nat in
  let widthPart := parts !! 1%nat in
  let widthMatch := widthPart ≫= JS.match_width in
  let width :=
    match widthMatch with
    | Some m => if JS.truthy m then JS.parseInt m else JS.Num 0
    | None => JS.Num 0
    end in
  mkEntry url width.

(** Does the whole of [s] read [/<digits>x<digits>bb(-<digits>)?.<ext>]? *)
Definition size_token (s : string) : bool :=
  match
    r ← JS.strip_prefix "/" s;
    r ← JS.digits1 r;
    r ← JS.strip_prefix "x" r;
    r ← JS.digits1 r;
    r ← JS.strip_prefix "bb" r;
    r ← match JS.strip_prefix "-" r with
        | Some r' => JS.digits1 r'
        | None => Some r
        end;
    JS.strip_prefix "." r
  with
  | Some ext => bool_decide (ext ∈ ["webp"; "jpg"; "jpeg"; "png"])
  | None => false
  end.

(** [url.replace(/\/\d+x\d+bb(-\d+)?\.(webp|jpg|jpeg|png)$/, '/392x696bb.png')]:
    the pattern is tried at each position from the left and, being anchored
    at the end, replaces everything from where it matches. *)
Fixpoint normalize_size (url : string) : string :=
  if size_token url then "/392x696bb.png"
  else match url with
       | String a url' => String a (normalize_size url')
       | EmptyString => EmptyString
       end.

(** [extractScreenshotUrl(srcset)]; [None] is [null]. *)
Definition extractScreenshotUrl (srcset : string) : option string :=
  let entries := map parse_srcset_entry (JS.split_char "," srcset) in
  let entries := JS.sort (fun a b => JS.sub (entry_width b) (entry_width a)) entries in
  let best := entries !! 0%nat in
  match best ≫= entry_url with
  | Some url => if JS.truthy url then Some (normalize_size url) else None
  | None => None
  end.

(** The record that the scraper fills and returns. *)
Record Screenshots : Type := mkScreenshots {
  scraped_screenshots : list string;
  scraped_ipadScreenshots : list string;
  scraped_appletvScreenshots : list string;
}.

(** The body of each of the three loops over [source] elements: [urls] is
    the array of the device class. *)
Definition screenshot_source (urls : list string) (el : Dom.node) : list string :=
  match Dom.attr "srcset" [el] with
  | Some srcset =>
      if JS.truthy srcset then
        match extractScreenshotUrl srcset with
        | Some url =>
            if JS.truthy url && negb (bool_decide (url ∈ urls))
            then urls ++ [url]
            else urls
        | None => urls
        end
      else urls
  | None => urls
  end.

(** [ul.<cls> source[type=image/webp]] *)
Definition screenshot_sources (cls : string) (doc : Dom.document) : Dom.selection :=
  Dom.select [Dom.tag_class "ul" cls; Dom.tag_attr "source" "type" "image/webp"] doc.

(** The three loops of the scraper, on the loaded page. *)
Definition scrape_document (result : Screenshots) (doc : Dom.document) : Screenshots :=
  {| scraped_screenshots :=
       fold_left screenshot_source
         (screenshot_sources "shelf-grid__list--grid-type-ScreenshotPhone" doc)
         (scraped_screenshots result);
     scraped_ipadScreenshots :=
       fold_left screenshot_source
         (screenshot_sources "shelf-grid__list--grid-type-ScreenshotPad" doc)
         (scraped_ipadScreenshots result);
     scraped_appletvScreenshots :=
       fold_left screenshot_source
         (screenshot_sources "shelf-grid__list--grid-type-ScreenshotAppleTv" doc)
         (scraped_appletvScreenshots result) |}.

(** The three loops are pure, so an exception can only leave the [try]
    block before [result] has been touched. *)
Definition scrapeScreenshots `{Platform} (appId : Z) (country : string)
    (requestOptions : option RequestOptions) : IO Screenshots :=
  let result := mkScreenshots [] [] [] in
  try_catch
    (body <- doRequest (app_page_url country appId) requestOptions ;;
     doc <- lift (cheerio_load body) ;;
     ret (scrape_document result doc))
    (fun _ => ret result).

(** [id || appId] *)
Definition id_or_appId (options : AppOptions) : ident :=
  match app_id options with
  | Some z => if z =? 0
              then match app_appId options with
                   | Some s => IdString s
                   | None => IdUndefined
                   end
              else IdNumber z
  | None => match app_appId options with
            | Some s => IdString s
            | None => IdUndefined
            end
  end.

(** The text of [id || appId] in the not-found message. *)
Definition ident_to_string (i : ident) : string :=
  match i with
  | IdNumber z => JS.ToString (JS.Num z)
  | IdString s => s
  | IdUndefined => "undefined"
  end.

(** The three arrays of the record are empty. *)
Definition hasNoScreenshots (appData : App) : bool :=
  (length (screenshots appData) =? 0)%nat
  && (length (ipadScreenshots appData) =? 0)%nat
  && (length (appletvScreenshots appData) =? 0)%nat.

(** The assignments to the three screenshot fields, and the one to
    [histogram]. *)
Definition set_screenshots (appData : App) (scraped : Screenshots) : App :=
  {| id := id appData;
     screenshots := scraped_screenshots scraped;
     ipadScreenshots := scraped_ipadScreenshots scraped;
     appletvScreenshots := scraped_appletvScreenshots scraped;
     histogram := histogram appData;
     app_fields := app_fields appData |}.

Definition set_histogram (appData : App) (h : RatingHistogram) : App :=
  {| id := id appData;
     screenshots := screenshots appData;
     ipadScreenshots := ipadScreenshots appData;
     appletvScreenshots := appletvScreenshots appData;
     histogram := Some h;
     app_fields := app_fields appData |}.

(** The screenshot fallback of [app]: when the lookup returned no
    screenshot at all, the three fields are overwritten with what the page
    scraping gives. *)
Definition screenshot_fallback `{Platform} (appData : App) (country : string)
    (requestOptions : option RequestOptions) : IO App :=
  if hasNoScreenshots appData
  then scrapedScreenshots <- scrapeScreenshots (id appData) country requestOptions ;;
       ret (set_screenshots appData scrapedScreenshots)
  else ret appData.

(** The optional rating histogram of [app], inside its [try]/[catch]. *)
Definition rating_enrichment `{Platform} (includeRatings : bool) (appData : App)
    (country : string) (requestOptions : option RequestOptions) : IO App :=
  if includeRatings
  then try_catch
         (ratingsData <- ratings (mkRatingsOptions (id appData) (Some country)
                                    requestOptions) ;;
          ret (set_histogram appData (ratings_histogram ratingsData)))
         (fun _ => ret appData)
  else ret appData.

(** [app(options)] *)
Definition app `{Platform} (options : AppOptions) : IO App :=
  _ <- lift (validateRequiredField options ["id"; "appId"] "Either id or appId is required") ;;
  let country := default "us" (app_country options) in
  let requestOptions := app_requestOptions options in
  apps <- lookup (id_or_appId options)
            (match id_or_appId options with IdNumber _ => "id" | _ => "bundleId" end)
            country (app_lang options) requestOptions ;;
  match apps with
  | [] => throw (Error ("App not found: " +:+ ident_to_string (id_or_appId options)))
  | appData :: _ =>
      appData <- screenshot_fallback appData country requestOptions ;;
      appData <- rating_enrichment (app_ratings options) appData country requestOptions ;;
      ret appData
  end.

(** * Notions the properties are stated with *)

(** Unfolds the sequencing of a computation down to the calls of the
    transport. *)
Ltac unfold_io := unfold bind, try_catch, doRequest, lift, throw, ret.

(** ** Search *)

(** The number of entries that a search returned. *)
Definition SearchResult_length (r : SearchResult) : nat :=
  match r with
  | Apps apps => length apps
  | Ids ids => length ids
  end.

(** The query of a search that asks the catalogue for [limit] results: the
    term, the country, the two fixed parameters and the limit in decimal,
    then the language when one is given. *)
Definition search_query (options : SearchOptions) (limit : Z) : list (string * string) :=
  let parameters :=
    [("term", search_term options); ("country", default "us" (search_country options));
     ("media", "software"); ("entity", "software"); ("limit", pretty limit)] in
  match search_lang options with
  | Some lang => if JS.truthy lang then parameters ++ [("lang", lang)] else parameters
  | None => parameters
  end.

(** ** Ratings *)

(** Every character of the string is a digit. *)
Fixpoint all_digits (s : string) : bool :=
  match s with
  | String a s' => JS.is_digit a && all_digits s'
  | EmptyString => true
  end.

(** The callback of the [reduce] in [parseRatings]. *)
Definition histogram_step (acc : RatingHistogram) (ratingsForStar : JS.number)
    (index : Z) : RatingHistogram :=
  <[5 - index := ratingsForStar]> acc.

(** A non-negative integer. *)
Definition is_count (v : JS.number) : Prop :=
  match v with
  | JS.Num z => 0 ≤ z
  | JS.NaN | JS.Infinity _ => False
  end.

(** [.vote .total] *)
Definition per_star_elements (doc : Dom.document) : Dom.selection :=
  Dom.select [Dom.class "vote"; Dom.class "total"] doc.

(** The request that [ratings] sends. *)
Definition ratings_request `{Platform} (options : RatingsOptions) : request :=
  mkRequest (ratings_url (default "us" (ratings_country options)) (ratings_id options))
    (Some (ratings_request_options (default "us" (ratings_country options))
             (ratings_requestOptions options))).

(** ** Screenshots and the orchestration of [app] *)

(** The request that the scraper sends. *)
Definition scrape_request (appId : Z) (country : string)
    (requestOptions : option RequestOptions) : request :=
  mkRequest (app_page_url country appId) requestOptions.

(** Three empty arrays. *)
Definition no_screenshots : Screenshots := mkScreenshots [] [] [].

(** What the scraper returns, read off the answers of the transport and of
    the parser. *)
Definition scrape_outcome `{Platform} (appId : Z) (country : string)
    (requestOptions : option RequestOptions) (log : list request) : Screenshots :=
  match transport log (scrape_request appId country requestOptions) with
  | Ok body =>
      match cheerio_load body with
      | Ok doc => scrape_document no_screenshots doc
      | Err _ => no_screenshots
      end
  | Err _ => no_screenshots
  end.

(** The container of one device class: [ul.<cls>]. *)
Definition screenshot_container (cls : string) (doc : Dom.document) : Dom.selection :=
  Dom.select [Dom.tag_class "ul" cls] doc.

(** The options that [app] hands to [ratings]. *)
Definition enrichment_options (appData : App) (country : string)
    (requestOptions : option RequestOptions) : RatingsOptions :=
  mkRatingsOptions (id appData) (Some country) requestOptions.

(** The lookup that [app] starts with. *)
Definition lookup_of `{Platform} (options : AppOptions) : IO (list App) :=
  lookup (id_or_appId options)
    (match id_or_appId options with IdNumber _ => "id" | _ => "bundleId" end)
    (default "us" (app_country options)) (app_lang options) (app_requestOptions options).

(** The check of the required fields passes. *)
Definition required_ok `{Platform} (options : AppOptions) : Prop :=
  validateRequiredField options ["id"; "appId"] "Either id or appId is required" = Ok ().

(** The requests that the enrichment adds to the log. *)
Definition enrichment_requests `{Platform} (includeRatings : bool) (appData : App)
    (country : string) (requestOptions : option RequestOptions) : list request :=
  if includeRatings
  then if id appData =? 0 then []
       else [ratings_request (enrichment_options appData country requestOptions)]
  else [].

(** ** Privacy *)

(** The selections and texts that [privacy] reads. *)
Definition external_links (doc : Dom.document) : Dom.selection :=
  Dom.select [dialog; Dom.tag_attr "a" "data-test-id" "external-link"] doc.

Definition purpose_sections (doc : Dom.document) : Dom.selection :=
  Dom.select [dialog; Dom.tag_class "section" "purpose-section"] doc.

Definition purpose_of (section : Dom.node) : string :=
  JS.trim (Dom.text (Dom.find [Dom.tag "h3"] section)).

Definition category_items (section : Dom.node) : Dom.selection :=
  Dom.find [Dom.tag_class "li" "purpose-category"] section.

Definition category_title (category : Dom.node) : string :=
  JS.trim (Dom.text (Dom.find [Dom.class "category-title"] category)).

(** The data-type children of a category item. *)
Definition data_type_items (category : Dom.node) : Dom.selection :=
  Dom.find [Dom.class "privacy-data-types"; Dom.tag "li"] category.

Definition data_types (category : Dom.node) : list string :=
  map (fun li => JS.trim (Dom.text [li])) (data_type_items category).

(** The link whose label holds the phrase. *)
Definition is_policy_link (el : Dom.node) : bool :=
  match Dom.attr "aria-label" [el] with
  | Some ariaLabel => JS.truthy ariaLabel && JS.includes "Privacy Policy" ariaLabel
  | None => false
  end.

(** The array [privacyTypes] when the two loops are over. *)
Definition privacy_records (doc : Dom.document) : list PrivacyType :=
  fold_left privacy_section (purpose_sections doc) [].

(** The guard of the push: a title that is not empty, and a data type. *)
Definition emits (category : Dom.node) : bool :=
  JS.truthy (category_title category) && (0 <? length (data_types category))%nat.

(** The record that is pushed for a category item. *)
Definition record_of (purpose : string) (category : Dom.node) : PrivacyType :=
  {| privacyType := category_title category;
     name := category_title category;
     description := "Used for " +:+ purpose;
     dataCategories := data_types category;
     purposes := [purpose] |}.

(** The record of a category item that passes the guard; no record
    otherwise. *)
Definition category_record (purpose : string) (category : Dom.node) : option PrivacyType :=
  if emits category then Some (record_of purpose category) else None.

(** The request that [privacy] and [versionHistory] send. *)
Definition page_request (options : PageOptions) : request :=
  mkRequest (app_page_url (default "us" (page_country options)) (page_id options))
    (page_requestOptions options).

(** The pairs of a purpose section and one of its category items, in the
    order of the two loops, whose item passes [keep]. *)
Definition categories_where (keep : Dom.node -> bool) (doc : Dom.document)
    : list (Dom.node * Dom.node) :=
  concat (map (fun section =>
                 map (pair section)
                   (filter (fun category => keep category = true) (category_items section)))
            (purpose_sections doc)).

(** The category items that have a data-type child. *)
Definition declares_data_type (category : Dom.node) : bool :=
  (0 <? length (data_type_items category))%nat.

(** C7 as the specification words it: the records are, in order, one for
    each category item with a data-type child, each with the purpose of its
    section. *)
Definition one_record_per_declaring_category (doc : Dom.document) : Prop :=
  map purposes (privacy_records doc)
  = map (fun sc => [purpose_of sc.1]) (categories_where declares_data_type doc).

(** ** Version history *)

(** What [versionHistory] reads in an article block. *)
Definition notes_nodes (article : Dom.node) : Dom.selection :=
  Dom.find [Dom.tag_class "p" "svelte-13339ih"] article.

Definition version_label (article : Dom.node) : string :=
  JS.trim (Dom.text (Dom.find [Dom.tag_class "h4" "svelte-13339ih"] article)).

Definition date_attribute (article : Dom.node) : option string :=
  Dom.attr "datetime" (Dom.find [Dom.tag "time"] article).

(** ** Suggestions *)

(** [strings[0]] of a dict: a scalar counts as a sequence of one. *)
Definition first_string (dict : SuggestDict) : option string :=
  match dict_string dict with
  | Some (Sequence l) => head l
  | Some (Scalar s) => Some s
  | None => None
  end.

(** The suggestion of a dict whose first string is there and not empty. *)
Definition suggestion_of (dict : SuggestDict) : option Suggestion :=
  match first_string dict with
  | Some s => if JS.truthy s then Some (mkSuggestion s) else None
  | None => None
  end.

(** [result.plist?.dict?.array] *)
Definition array_of (result : SuggestResponse) : option SuggestArray :=
  match plist result with
  | Some p => match plist_dict p with
              | Some d => dict_array d
              | None => None
              end
  | None => None
  end.

(** The request that [suggest] sends. *)
Definition suggest_request `{Platform} (options : SuggestOptions) : request :=
  mkRequest (suggest_url (suggest_term options)) (suggest_requestOptions options).

(** * Sample pages, and a platform to run the operations on them *)

(** The transport and the HTML parser are given; the catalogue answers
    [entries] to a search and [apps] to a lookup, the autocomplete endpoint
    answers [hints]. *)
Definition sample_platform (net : list request -> request -> result string)
    (parse : string -> result Dom.document) (entries : list ITunesAppResponse)
    (apps : list App) (hints : SuggestResponse) : Platform :=
  {| transport := net;
     cheerio_load := parse;
     JSON_parse := fun _ => Ok JNull;
     XMLParser_parse := fun _ => Ok JNull;
     iTunesLookupResponseSchema := fun _ => inr (mkITunesLookupResponse entries);
     suggestResponseSchema := fun _ => inr hints;
     cleanApp := fun e => mkApp (default 0 (trackId e)) [] [] [] None (entry_fields e);
     lookup := fun _ _ _ _ _ => ret apps;
     storeId := fun _ => "143441";
     validateRequiredField := fun _ _ _ => Ok ();
     URLSearchParams_toString :=
       fun params => String.concat "&" (map (fun kv => kv.1 +:+ "=" +:+ kv.2) params);
     encodeURIComponent := fun s => s |}.

(** A catalogue answer of six entries, the second of which is no software;
    page 2 of size 2 holds the entry 30 and the one after it, which has no
    identifier. *)
Definition sample_entries : list ITunesAppResponse :=
  [ mkITunesAppResponse (Some "software") (Some 10) [];
    mkITunesAppResponse (Some "ebook") (Some 11) [];
    mkITunesAppResponse (Some "software") (Some 20) [];
    mkITunesAppResponse (Some "software") (Some 30) [];
    mkITunesAppResponse (Some "software") None [];
    mkITunesAppResponse (Some "software") (Some 50) [] ].

Definition sample_search_platform : Platform :=
  sample_platform (fun _ _ => Ok "{}") (fun _ => Ok []) sample_entries []
    (mkSuggestResponse None).

Definition sample_search_options : SearchOptions :=
  mkSearchOptions "minecraft" (Some 2) (Some 2) None None true None.

(** A search for a page whose number times its size, 9007199515875289, is
    an odd integer above [2 ^ 53], so it is not a double. *)
Definition sample_large_page_options : SearchOptions :=
  mkSearchOptions "minecraft" (Some 94906267) (Some 94906267) None None true None.

(** A ratings page with the total [21 Ratings] and one per-star element for
    each of [counts]: its text, and the document the parser makes of it. *)
Definition sample_ratings_html (counts : list string) : string :=
  "<html><body><span class='rating-count'>21 Ratings</span>"
  +:+ String.concat ""
        (map (fun count => "<div class='vote'><span class='total'>" +:+ count +:+ "</span></div>")
           counts)
  +:+ "</body></html>".

Definition sample_vote (count : string) : Dom.node :=
  Dom.Element "div" [("class", "vote")]
    [Dom.Element "span" [("class", "total")] [Dom.Text count]].

Definition sample_ratings_page (counts : list string) : Dom.document :=
  [Dom.Element "html" []
     [Dom.Element "body" []
        (Dom.Element "span" [("class", "rating-count")] [Dom.Text "21 Ratings"]
         :: map sample_vote counts)]].

(** The ratings endpoint answers that page, and the parser reads it. *)
Definition sample_ratings_platform (counts : list string) : Platform :=
  sample_platform (fun _ _ => Ok (sample_ratings_html counts))
    (fun body => if String.eqb body (sample_ratings_html counts)
                 then Ok (sample_ratings_page counts) else Ok [])
    [] [] (mkSuggestResponse None).

(** A ratings page that lists six per-star counts. *)
Definition six_star_counts : list string := ["6"; "5"; "4"; "3"; "2"; "1"].

(** A ratings page whose only per-star count is not a number. *)
Definition unparseable_star_counts : list string := ["N/A"].

(** A ratings page that lists the counts of five, four and three stars. *)
Definition three_star_counts : list string := ["3000"; " 1000"; "500 votes"].

(** A detail page with one phone screenshot and no other container. *)
Definition sample_app_page : Dom.document :=
  [Dom.Element "html" []
     [Dom.Element "body" []
        [Dom.Element "ul" [("class", "shelf-grid__list shelf-grid__list--grid-type-ScreenshotPhone")]
           [Dom.Element "li" []
              [Dom.Element "picture" []
                 [Dom.Element "source"
                    [("type", "image/webp");
                     ("srcset", "https://is1-ssl.mzstatic.com/image/thumb/a/300x650bb.webp 300w, https://is1-ssl.mzstatic.com/image/thumb/a/600x1300bb-60.webp 600w")]
                    [];
                  Dom.Element "source"
                    [("type", "image/jpeg");
                     ("srcset", "https://is1-ssl.mzstatic.com/image/thumb/a/300x650bb.jpg 300w")]
                    []]]]]]].

(** The detail pages answer, the ratings page times out. *)
Definition sample_net (log : list request) (r : request) : result string :=
  if JS.startsWith "https://apps.apple.com/" (req_url r)
  then Ok "<html>...</html>"
  else Err (Error "ETIMEDOUT").

(** A record as the lookup returns it for an app without screenshots in
    the catalogue. *)
Definition sample_app : App :=
  mkApp 6756671942 [] [] [] None [("title", JString "Bygone")].

Definition sample_app_platform (apps : list App) : Platform :=
  sample_platform sample_net (fun _ => Ok sample_app_page) [] apps (mkSuggestResponse None).

Definition sample_app_options (includeRatings : bool) : AppOptions :=
  mkAppOptions (Some 6756671942) None None None includeRatings None.

(** The same app when the catalogue already lists a tablet screenshot. *)
Definition sample_app_with_screenshot : App :=
  mkApp 479516143 [] ["https://is1-ssl.mzstatic.com/image/thumb/b/552x414bb.jpg"] [] None
    [("title", JString "Minecraft")].

(** A purpose section whose only category item declares a data type but
    has no title element. *)
Definition untitled_category_page : Dom.document :=
  [Dom.Element "html" []
     [Dom.Element "dialog" [("data-testid", "dialog")]
        [Dom.Element "section" [("class", "purpose-section")]
           [Dom.Element "h3" [] [Dom.Text "Analytics"];
            Dom.Element "ul" []
              [Dom.Element "li" [("class", "purpose-category")]
                 [Dom.Element "ul" [("class", "privacy-data-types")]
                    [Dom.Element "li" [] [Dom.Text "Email Address"]]]]]]]].

(** A version-history dialog with two article blocks; the older one has
    neither a date attribute nor notes. *)
Definition sample_version_page : Dom.document :=
  [Dom.Element "html" []
     [Dom.Element "dialog" [("data-testid", "dialog")]
        [Dom.Element "article" [("class", "svelte-13339ih")]
           [Dom.Element "h4" [("class", "svelte-13339ih")] [Dom.Text " 2.0 "];
            Dom.Element "time" [("datetime", "2024-05-01T00:00:00.000Z")] [Dom.Text "May 1"];
            Dom.Element "p" [("class", "svelte-13339ih")] [Dom.Text "  Bug fixes. "]];
         Dom.Element "article" [("class", "svelte-13339ih")]
           [Dom.Element "h4" [("class", "svelte-13339ih")] [Dom.Text "1.0"];
            Dom.Element "time" [] [Dom.Text "long ago"]]]]].

Definition sample_page_platform (doc : Dom.document) : Platform :=
  sample_platform (fun _ _ => Ok "<html>...</html>") (fun _ => Ok doc) [] []
    (mkSuggestResponse None).

(** The response whose array holds one dict with the sequence
    [minecraft]. *)
Definition minecraft_response : SuggestResponse :=
  mkSuggestResponse (Some (mkSuggestPlist (Some (mkSuggestPlistDict
    (Some (ArrayObject (Some [mkSuggestDict (Some (Sequence ["minecraft"]))]))))))).

Definition sample_suggest_platform : Platform :=
  sample_platform (fun _ _ => Ok "<plist>...</plist>") (fun _ => Ok []) [] []
    minecraft_response.

(** A privacy dialog with a policy link and two purpose sections; the
    second category item of the first section declares no data type. *)
Definition sample_privacy_page : Dom.document :=
  [Dom.Element "html" []
     [Dom.Element "dialog" [("data-testid", "dialog")]
        [Dom.Element "a"
           [("data-test-id", "external-link"); ("aria-label", "Developer Privacy Policy");
            ("href", "https://example.com/privacy")]
           [Dom.Text "Privacy Policy"];
         Dom.Element "section" [("class", "purpose-section")]
           [Dom.Element "h3" [] [Dom.Text " Analytics "];
            Dom.Element "ul" []
              [Dom.Element "li" [("class", "purpose-category")]
                 [Dom.Element "span" [("class", "category-title")] [Dom.Text "Contact Info"];
                  Dom.Element "ul" [("class", "privacy-data-types")]
                    [Dom.Element "li" [] [Dom.Text "Email Address"];
                     Dom.Element "li" [] [Dom.Text "Name"]]];
               Dom.Element "li" [("class", "purpose-category")]
                 [Dom.Element "span" [("class", "category-title")] [Dom.Text "Usage Data"]]]];
         Dom.Element "section" [("class", "purpose-section")]
           [Dom.Element "h3" [] [Dom.Text "App Functionality"];
            Dom.Element "ul" []
              [Dom.Element "li" [("class", "purpose-category")]
                 [Dom.Element "span" [("class", "category-title")] [Dom.Text "Identifiers"];
                  Dom.Element "ul" [("class", "privacy-data-types")]
                    [Dom.Element "li" [] [Dom.Text "User ID"]]]]]]]].

(** The records of that page. *)
Definition sample_privacy_records : list PrivacyType :=
  [mkPrivacyType "Contact Info" "Contact Info" "Used for Analytics"
     ["Email Address"; "Name"] ["Analytics"];
   mkPrivacyType "Identifiers" "Identifiers" "Used for App Functionality"
     ["User ID"] ["App Functionality"]].

(** A response with five dicts: a sequence, an empty sequence, an empty
    scalar, a dict without strings, and a scalar. *)
Definition sample_hints : SuggestResponse :=
  mkSuggestResponse (Some (mkSuggestPlist (Some (mkSuggestPlistDict
    (Some (ArrayObject (Some
       [mkSuggestDict (Some (Sequence ["minecraft"; "mine"]));
        mkSuggestDict (Some (Sequence []));
        mkSuggestDict (Some (Scalar EmptyString));
        mkSuggestDict None;
        mkSuggestDict (Some (Scalar "minesweeper"))]))))))).

(** A transport that is down. *)
Definition sample_net_down (log : list request) (r : request) : result string :=
  Err (Error "ENOTFOUND").

(** * Notions of the properties of the whole operations *)

(** The request that [search] sends. *)
Definition search_request `{Platform} (options : SearchOptions) : request :=
  mkRequest (search_url options) (search_requestOptions options).

(** The software entries of a catalogue answer, and the page that [search]
    cuts out of them. *)
Definition software_entries (response : ITunesLookupResponse) : list ITunesAppResponse :=
  filter (fun app => kind app = Some "software") (results response).

Definition page_of (options : SearchOptions) (response : ITunesLookupResponse)
    : list ITunesAppResponse :=
  Array_slice
    ((default 1 (search_page options) - 1) * default 50 (search_num options))
    ((default 1 (search_page options) - 1) * default 50 (search_num options)
     + default 50 (search_num options))
    (software_entries response).

(** What [search] returns for a page of entries. *)
Definition found_in (options : SearchOptions) (entries : list ITunesAppResponse)
    `{Platform} : SearchResult :=
  if search_idsOnly options then Ids (omap trackId entries) else Apps (map cleanApp entries).

(** No character of the string is a digit, and the string starts with a
    digit. *)
Fixpoint no_digits (s : string) : bool :=
  match s with
  | String a s' => negb (JS.is_digit a) && no_digits s'
  | EmptyString => true
  end.

Definition starts_with_digit (s : string) : bool :=
  match s with
  | String a _ => JS.is_digit a
  | EmptyString => false
  end.

(** The text of the total-count element. *)
Definition rating_count_text (doc : Dom.document) : string :=
  Dom.text (Dom.select [Dom.class "rating-count"] doc).

(** The headers and options that the caller of [ratings] gave. *)
Definition given_options (options : RatingsOptions) : RequestOptions :=
  default (mkRequestOptions None ∅) (ratings_requestOptions options).

Definition given_headers (options : RatingsOptions) : gmap string string :=
  default ∅ (headers (given_options options)).

(** A ratings page whose total is written with a thousands separator. *)
Definition sample_separator_page : Dom.document :=
  [Dom.Element "html" []
     [Dom.Element "span" [("class", "rating-count")] [Dom.Text "1,234 Ratings"]]].

(** A ratings page whose total, [2 ^ 53 + 1], is not a double. *)
Definition sample_large_total_page : Dom.document :=
  [Dom.Element "html" []
     [Dom.Element "span" [("class", "rating-count")] [Dom.Text "9007199254740993 Ratings"]]].

(** A privacy dialog with two links labelled as the privacy policy, the
    first of which has no address. *)
Definition sample_two_links_page : Dom.document :=
  [Dom.Element "html" []
     [Dom.Element "dialog" [("data-testid", "dialog")]
        [Dom.Element "a" [("data-test-id", "external-link"); ("aria-label", "Support")]
           [Dom.Text "Support"];
         Dom.Element "a" [("data-test-id", "external-link"); ("aria-label", "Privacy Policy")]
           [Dom.Text "Policy"];
         Dom.Element "a"
           [("data-test-id", "external-link"); ("aria-label", "Privacy Policy");
            ("href", "https://example.com/privacy")]
           [Dom.Text "Policy"]]]].

(** Every page answers with the sample ratings page; the lookup finds the
    app that has a screenshot. *)
Definition sample_rated_platform : Platform :=
  sample_platform (fun _ _ => Ok (sample_ratings_html three_star_counts))
    (fun _ => Ok (sample_ratings_page three_star_counts))
    [] [sample_app_with_screenshot] (mkSuggestResponse None).

(** Every page answers with a page that has no rating markup; the lookup
    finds the app that has a screenshot. *)
Definition sample_unrated_platform : Platform :=
  sample_platform (fun _ _ => Ok "<html><body></body></html>")
    (fun _ => Ok [Dom.Element "html" [] [Dom.Element "body" [] []]])
    [] [sample_app_with_screenshot] (mkSuggestResponse None).

(** The URL that one [source] element contributes, if any. *)
Definition screenshot_candidate (el : Dom.node) : option string :=
  match Dom.attr "srcset" [el] with
  | Some srcset =>
      if JS.truthy srcset then
        match extractScreenshotUrl srcset with
        | Some url => if JS.truthy url then Some url else None
        | None => None
        end
      else None
  | None => None
  end.

(** The URLs of [l] that are neither in [seen] nor earlier in [l], in the
    order of [l]. *)
Fixpoint first_seen (seen l : list string) : list string :=
  match l with
  | url :: l' =>
      if bool_decide (url ∈ seen) then first_seen seen l'
      else url :: first_seen (seen ++ [url]) l'
  | [] => []
  end.

(** A candidate as a page writes it in a [srcset]: the address, then the
    width descriptor, a run of digits before [w], when it has one. *)
Record candidate : Type := mkCandidate {
  candidate_url : string;
  candidate_width : option string;
}.

Definition write_candidate (c : candidate) : string :=
  candidate_url c
  +:+ match candidate_width c with
      | Some digits => " " +:+ digits +:+ "w"
      | None => EmptyString
      end.

(** The [srcset] that lists the candidates, a comma and a blank between
    two of them. *)
Definition write_srcset (cs : list candidate) : string :=
  String.concat ", " (map write_candidate cs).

(** The width that a candidate declares: the number that its descriptor
    writes, and 0 without descriptor. *)
Definition declared_width (c : candidate) : Z :=
  match candidate_width c with
  | Some digits => JS.decimal 0 digits
  | None => 0
  end.

(** No character of the string is a comma; none is a comma or white
    space. *)
Fixpoint no_comma (s : string) : bool :=
  match s with
  | String a s' => negb (Ascii.eqb a ",") && no_comma s'
  | EmptyString => true
  end.

Fixpoint plain (s : string) : bool :=
  match s with
  | String a s' => negb (JS.is_space a) && negb (Ascii.eqb a ",") && plain s'
  | EmptyString => true
  end.

(** The address of the candidate is not empty and holds neither comma nor
    white space; its descriptor, if any, is a run of digits that writes an
    integer exact as a double. *)
Definition well_written (c : candidate) : Prop :=
  candidate_url c ≠ EmptyString
  ∧ plain (candidate_url c) = true
  ∧ match candidate_width c with
    | Some digits =>
        all_digits digits = true ∧ digits ≠ EmptyString
        ∧ JS.decimal 0 digits ≤ JS.MAX_SAFE_INTEGER
    | None => True
    end.

(** The entry to be read from a written candidate. *)
Definition entry_of (c : candidate) : srcset_entry :=
  mkEntry (Some (candidate_url c)) (JS.Num (declared_width c)).

(** A [srcset] of three candidates, the widest in the middle, the last one
    without descriptor. *)
Definition sample_candidates : list candidate :=
  [mkCandidate "https://is1-ssl.mzstatic.com/image/thumb/a/300x650bb.webp" (Some "300");
   mkCandidate "https://is1-ssl.mzstatic.com/image/thumb/b/600x1300bb-60.webp" (Some "1200");
   mkCandidate "https://is1-ssl.mzstatic.com/image/thumb/c/1x1bb.webp" None].

(** The candidates of a [srcset], and the width of one as an integer. *)
Definition srcset_entries (srcset : string) : list srcset_entry :=
  map parse_srcset_entry (JS.split_char "," srcset).

Definition width_of (e : srcset_entry) : Z :=
  match entry_width e with
  | JS.Num z => z
  | JS.NaN | JS.Infinity _ => 0
  end.

(** The first of the candidates of largest width. *)
Fixpoint widest (l : list srcset_entry) : option srcset_entry :=
  match l with
  | x :: l' =>
      match widest l' with
      | Some y => if width_of x <? width_of y then Some y else Some x
      | None => Some x
      end
  | [] => None
  end.

(** The string holds a slash. *)
Fixpoint has_slash (s : string) : bool :=
  match s with
  | String a s' => Ascii.eqb a "/" || has_slash s'
  | EmptyString => false
  end.

(** * Properties *)

(** ** Running a computation *)

Lemma doRequest_run `{Platform} url requestOptions log :
  doRequest url requestOptions log =
    (transport log (mkRequest url requestOptions), log ++ [mkRequest url requestOptions]).
Proof. reflexivity. Qed.

(** ** Numbers *)

Lemma log2_safe z : 0 ≤ z ≤ JS.MAX_SAFE_INTEGER -> Z.log2 z ≤ 52.
Proof.
  unfold JS.MAX_SAFE_INTEGER. intros Hz.
  destruct (Z.eq_dec z 0) as [->|Hne]; [done|].
  assert (Z.log2 z < 53); [|lia]. apply Z.log2_lt_pow2; lia.
Qed.

(** An integer up to [MAX_SAFE_INTEGER] is a double. *)
Lemma round_to_double_safe z : 0 ≤ z ≤ JS.MAX_SAFE_INTEGER -> JS.round_to_double z = z.
Proof.
  intros Hz. pose proof (log2_safe z Hz). unfold JS.round_to_double.
  by destruct (Z.leb_spec (Z.log2 z - 52) 0); [|lia].
Qed.

Lemma of_integer_safe z : Z.abs z ≤ JS.MAX_SAFE_INTEGER -> JS.of_integer z = JS.Num z.
Proof.
  intros Hz. unfold JS.of_integer.
  rewrite round_to_double_safe by lia.
  pose proof (log2_safe (Z.abs z) ltac:(lia)).
  destruct (Z.ltb_spec 1023 (Z.log2 (Z.abs z))); [lia|].
  f_equal. destruct (Z.ltb_spec z 0); lia.
Qed.

Lemma round_to_double_nonneg z : 0 ≤ z -> 0 ≤ JS.round_to_double z.
Proof.
  intros Hz. unfold JS.round_to_double.
  destruct (Z.log2 z - 52 <=? 0); [exact Hz|].
  apply Z.shiftl_nonneg.
  pose proof (proj2 (Z.shiftr_nonneg z (Z.log2 z - 52)) Hz).
  destruct (_ || _); lia.
Qed.

(** The number value of a non-negative integer is a non-negative integer,
    or the positive infinity. *)
Lemma of_integer_nonneg z :
  0 ≤ z -> JS.of_integer z = JS.Infinity false ∨ ∃ m, JS.of_integer z = JS.Num m ∧ 0 ≤ m.
Proof.
  intros Hz. unfold JS.of_integer.
  destruct (Z.ltb_spec z 0) as [?|_]; [lia|].
  destruct (1023 <? _); [by left|right].
  eexists. split; [reflexivity|]. apply round_to_double_nonneg. lia.
Qed.

(** The sign of a difference survives the rounding. *)
Lemma of_integer_positive z :
  Z.abs z ≤ JS.MAX_SAFE_INTEGER -> JS.positive (JS.of_integer z) = (0 <? z).
Proof. intros Hz. by rewrite of_integer_safe. Qed.

Lemma ToString_safe z : Z.abs z ≤ JS.MAX_SAFE_INTEGER -> JS.ToString (JS.Num z) = pretty z.
Proof. intros Hz. cbn [JS.ToString]. by destruct (Z.leb_spec (Z.abs z) JS.MAX_SAFE_INTEGER); [|lia]. Qed.

(** ** The search paginator *)

Section Paginator.
Context {A : Type}.
Implicit Types l : list A.

(** For a window that starts at or after the first element, [slice] is
    [drop] followed by [take]. *)
Lemma Array_slice_window (start count : Z) l :
  0 ≤ start -> 0 ≤ count ->
  Array_slice start (start + count) l = take (Z.to_nat count) (drop (Z.to_nat start) l).
Proof.
  intros Hs Hc. unfold Array_slice.
  destruct (Z.ltb_spec start 0) as [?|_]; [lia|].
  destruct (Z.ltb_spec (start + count) 0) as [?|_]; [lia|].
  destruct (Z_le_gt_dec (Z.of_nat (length l)) start) as [Hout|Hin].
  - rewrite (drop_ge l (Z.to_nat start)) by lia.
    rewrite (drop_ge l) by lia. by rewrite !take_nil.
  - rewrite (Z.min_l start) by lia.
    apply list_eq. intros i.
    rewrite !lookup_take, !lookup_drop.
    repeat case_decide; try reflexivity; try lia.
    symmetry. apply lookup_ge_None. lia.
Qed.

Lemma window_length (start count : nat) l :
  (length (take count (drop start l)) ≤ count)%nat.
Proof. rewrite length_take. lia. Qed.

Lemma window_lookup (start count i : nat) l :
  (i < count)%nat -> take count (drop start l) !! i = l !! (start + i)%nat.
Proof. intros Hi. by rewrite lookup_take_lt, lookup_drop. Qed.

End Paginator.

Lemma length_omap_le {A B} (f : A -> option B) (l : list A) :
  (length (omap f l) ≤ length l)%nat.
Proof. induction l as [|x l IH]; csimpl; [lia|]. destruct (f x); simpl; lia. Qed.

(** While [page * num] is exact as a double, the parameters that [search]
    builds are the query with the limit [page * num]. *)
Lemma search_params_query (options : SearchOptions) :
  Z.abs (default 1 (search_page options) * default 50 (search_num options))
    ≤ JS.MAX_SAFE_INTEGER ->
  search_params options =
    search_query options (default 1 (search_page options) * default 50 (search_num options)).
Proof.
  intros Hsafe. unfold search_params, search_query, JS.mul.
  rewrite (of_integer_safe _ Hsafe), (ToString_safe _ Hsafe).
  destruct (search_lang options) as [lang|]; [destruct (JS.truthy lang)|]; reflexivity.
Qed.

(** C1, amended. For a page [p >= 1] of size [num >= 1] with [p * num] at
    most [MAX_SAFE_INTEGER], [search] sends exactly one request, to the
    search endpoint of the catalogue, whose [limit] parameter is [p * num];
    it keeps the entries of kind software and, of these, returns the ones at
    the positions from [(p-1) * num] up to [p * num], in the order of the
    response (normalised, or as identifiers in the ids-only mode); so it
    returns at most [num] entries. *)
Theorem search_returns_requested_page `{Platform} (options : SearchOptions)
    (log : list request) (body : string) (parsedData : json)
    (response : ITunesLookupResponse) :
  let num := default 50 (search_num options) in
  let page := default 1 (search_page options) in
  let sent :=
    mkRequest
      ("https://itunes.apple.com/search?"
       +:+ URLSearchParams_toString (search_query options (page * num)))
      (search_requestOptions options) in
  let software := filter (fun app => kind app = Some "software") (results response) in
  let window := take (Z.to_nat num) (drop (Z.to_nat ((page - 1) * num)) software) in
  1 ≤ page -> 1 ≤ num -> page * num ≤ JS.MAX_SAFE_INTEGER ->
  JS.truthy (search_term options) = true ->
  transport log sent = Ok body ->
  JSON_parse body = Ok parsedData ->
  iTunesLookupResponseSchema parsedData = inr response ->
  filter (fun kv => kv.1 = "limit") (search_query options (page * num))
    = [("limit", pretty (page * num))]
  ∧ (∃ found,
       search options log = (Ok found, log ++ [sent])
       ∧ found = (if search_idsOnly options
                  then Ids (omap trackId window)
                  else Apps (map cleanApp window))
       ∧ (Z.of_nat (SearchResult_length found) ≤ num))
  ∧ (∀ i : nat, (i < Z.to_nat num)%nat ->
       window !! i = software !! (Z.to_nat ((page - 1) * num) + i)%nat)
  ∧ (∀ i : nat, (Z.to_nat num ≤ i)%nat -> window !! i = None).
Proof.
  intros num page sent software window Hpage Hnum Hsafe Hterm Hnet Hjson Hschema.
  split.
  { unfold search_query.
    destruct (search_lang options) as [lang|]; [destruct (JS.truthy lang)|]; reflexivity. }
  split; [|split].
  - eexists. split; [|split; [reflexivity|]].
    + unfold search, bind, doRequest, lift. rewrite Hterm. cbn beta iota zeta delta [negb].
      unfold search_url. rewrite search_params_query by (fold page num; nia).
      fold num page sent. rewrite Hnet, Hjson, Hschema.
      rewrite (Array_slice_window ((page - 1) * num) num) by (subst page num; nia).
      fold num page software window.
      destruct (search_idsOnly options); reflexivity.
    + destruct (search_idsOnly options); simpl.
      * pose proof (length_omap_le trackId window).
        pose proof (window_length (Z.to_nat ((page - 1) * num)) (Z.to_nat num) software).
        subst window. lia.
      * rewrite length_map.
        pose proof (window_length (Z.to_nat ((page - 1) * num)) (Z.to_nat num) software).
        subst window. lia.
  - intros i Hi. by apply window_lookup.
  - intros i Hi. by apply lookup_take_ge.
Qed.

Lemma search_returns_requested_page_witness :
  @search sample_search_platform sample_search_options [] =
    (Ok (Ids [30]),
     [mkRequest "https://itunes.apple.com/search?term=minecraft&country=us&media=software&entity=software&limit=4"
        None]).
Proof.
  destruct (@search_returns_requested_page sample_search_platform
              sample_search_options [] "{}" JNull (mkITunesLookupResponse sample_entries))
    as (_ & (found & Hrun & Hfound & _) & _);
    [simpl; lia | simpl; lia | vm_compute; discriminate
    | reflexivity | reflexivity | reflexivity | reflexivity |].
  rewrite Hrun, Hfound. reflexivity.
Defined.

(** C1 fails as worded when [p * num] is not a double: for the page
    94906267 of size 94906267 the product is 9007199515875289, and the limit
    that [search] sends is the double next to it, 9007199515875288, so the
    request is not the one with the limit [p * num]. *)
Lemma search_limit_is_rounded :
  94906267 * 94906267 = 9007199515875289
  ∧ (@search sample_search_platform sample_large_page_options []).2 =
      [mkRequest "https://itunes.apple.com/search?term=minecraft&country=us&media=software&entity=software&limit=9007199515875288"
         None]
  ∧ (@search sample_search_platform sample_large_page_options []).2 ≠
      [mkRequest
         ("https://itunes.apple.com/search?"
          +:+ @URLSearchParams_toString sample_search_platform
                (search_query sample_large_page_options (94906267 * 94906267)))
         None].
Proof.
  split; [reflexivity|]. split; [vm_compute; reflexivity|].
  vm_compute. discriminate.
Qed.

(** ** The ratings histogram *)

(** C2, at the inputs where the code leaves the histogram's contract. On a
    non-empty page with six per-star elements the sixth count is stored
    under the key 0, so the key set is not 1..5; on a page whose per-star
    element holds no number the count of five stars is [NaN], not a
    non-negative integer. The total count is read in both. *)
Theorem ratings_histogram_outside_contract :
  (∃ r, (@ratings (sample_ratings_platform six_star_counts)
           (mkRatingsOptions 553834731 None None) []).1 = Ok r
        ∧ ratings_total r = JS.Num 21
        ∧ ratings_histogram r !! 0 = Some (JS.Num 1)
        ∧ dom (ratings_histogram r) = {[ 0; 1; 2; 3; 4; 5 ]})
  ∧ (∃ r, (@ratings (sample_ratings_platform unparseable_star_counts)
             (mkRatingsOptions 553834731 None None) []).1 = Ok r
          ∧ ratings_histogram r !! 5 = Some JS.NaN
          ∧ dom (ratings_histogram r) = {[ 1; 2; 3; 4; 5 ]}).
Proof.
  split.
  - eexists. split; [vm_compute; reflexivity|].
    split; [reflexivity|]. split; [reflexivity|].
    vm_compute. reflexivity.
  - eexists. split; [vm_compute; reflexivity|].
    split; [reflexivity|].
    vm_compute. reflexivity.
Qed.

(** *** What [parseInt] and the digit pattern give *)

Lemma digit_value_range a : JS.is_digit a = true -> 0 ≤ JS.digit_value a ≤ 9.
Proof.
  destruct a as [[] [] [] [] [] [] [] []]; cbn; intros Hd;
    first [discriminate Hd | vm_compute; split; discriminate].
Qed.

Lemma digit_not_space a : JS.is_digit a = true -> JS.is_space a = false.
Proof. destruct a as [[] [] [] [] [] [] [] []]; cbn; intros Hd; first [discriminate Hd | reflexivity]. Qed.

Lemma span_digits_fst s : all_digits (JS.span_digits s).1 = true.
Proof.
  induction s as [|a s IH]; [reflexivity|]. cbn [JS.span_digits].
  destruct (JS.is_digit a) eqn:Ha; [|reflexivity].
  destruct (JS.span_digits s) as [ds rest]. cbn in *. by rewrite Ha, IH.
Qed.

Lemma span_digits_all s : all_digits s = true -> JS.span_digits s = (s, EmptyString).
Proof.
  induction s as [|a s IH]; [reflexivity|]. cbn.
  intros [Ha Hs]%andb_true_iff. rewrite Ha, (IH Hs). reflexivity.
Qed.

Lemma decimal_nonneg ds : ∀ acc, all_digits ds = true -> 0 ≤ acc -> 0 ≤ JS.decimal acc ds.
Proof.
  induction ds as [|a ds IH]; intros acc Hds Hacc; [exact Hacc|]. cbn in *.
  apply andb_true_iff in Hds as [Ha Hds]. apply IH; [exact Hds|].
  pose proof (digit_value_range a Ha). lia.
Qed.

(** On a non-empty run of digits [parseInt] reads the whole run. *)
Lemma parseInt_digits m :
  all_digits m = true -> m ≠ EmptyString ->
  JS.parseInt m = JS.of_integer (JS.decimal 0 m) ∧ 0 ≤ JS.decimal 0 m.
Proof.
  intros Hm Hne. split; [|by apply decimal_nonneg].
  destruct m as [|a m]; [done|].
  pose proof Hm as Hm'. cbn in Hm'. apply andb_true_iff in Hm' as [Ha _].
  unfold JS.parseInt. cbn [JS.trimStart]. rewrite (digit_not_space a Ha).
  assert (Hsign : (match String a m with
                   | String "-" r => (true, r)
                   | String "+" r => (false, r)
                   | _ => (false, String a m)
                   end)%char = (false, String a m)).
  { destruct a as [[] [] [] [] [] [] [] []]; first [discriminate Ha | reflexivity]. }
  rewrite Hsign, (span_digits_all _ Hm). reflexivity.
Qed.

Lemma match_digits_Some s m :
  JS.match_digits s = Some m -> all_digits m = true ∧ m ≠ EmptyString.
Proof.
  revert m. induction s as [|a s IH]; intros m; [discriminate|]. cbn [JS.match_digits].
  destruct (JS.is_digit a) eqn:Ha; [|apply IH].
  intros [= <-]. split; [apply (span_digits_fst (String a s))|].
  cbn [JS.span_digits]. rewrite Ha. by destruct (JS.span_digits s).
Qed.

Lemma match_digits_none s : no_digits s = true -> JS.match_digits s = None.
Proof.
  induction s as [|a s IH]; [reflexivity|]. cbn.
  destruct (JS.is_digit a); [discriminate|]. exact IH.
Qed.

(** *** The histogram as the [reduce] builds it *)

(** The count at position [j] lands on the key [5 - (index + j)]; every
    other key keeps its value. *)
Lemma histogram_reduce_lookup (l : list JS.number) :
  ∀ (index : Z) (acc : RatingHistogram) (k : Z),
    Array_reduce histogram_step index l acc !! k =
      if decide (index ≤ 5 - k)
      then match l !! Z.to_nat (5 - k - index) with
           | Some x => Some x
           | None => acc !! k
           end
      else acc !! k.
Proof.
  induction l as [|x l IH]; intros index acc k; cbn [Array_reduce].
  - case_decide; reflexivity.
  - rewrite IH. unfold histogram_step.
    destruct (decide (index + 1 ≤ 5 - k)) as [Hlt|Hge].
    + rewrite decide_True by lia.
      replace (Z.to_nat (5 - k - index)) with (S (Z.to_nat (5 - k - (index + 1)))) by lia.
      rewrite lookup_cons.
      destruct (l !! _); [reflexivity|]. apply lookup_insert_ne. lia.
    + destruct (decide (index ≤ 5 - k)) as [Hle|Hgt].
      * assert (k = 5 - index) as -> by lia.
        replace (5 - (5 - index) - index) with 0 by lia.
        rewrite lookup_cons. apply lookup_insert_eq.
      * apply lookup_insert_ne. lia.
Qed.

Lemma empty_histogram_lookup k :
  empty_histogram !! k = if decide (1 ≤ k ≤ 5) then Some (JS.Num 0) else None.
Proof.
  unfold empty_histogram. rewrite !lookup_insert, lookup_empty.
  repeat case_decide; try reflexivity; lia.
Qed.

(** Whatever the page holds, the total count is a non-negative integer, or
    the infinity that a run of digits beyond the doubles reads as. *)
Lemma parseRatings_total `{Platform} html r :
  parseRatings html = Ok r ->
  is_count (ratings_total r) ∨ ratings_total r = JS.Infinity false.
Proof.
  unfold parseRatings. destruct (cheerio_load html) as [doc|]; [|discriminate].
  intros [= <-]. cbn [ratings_total].
  destruct (JS.match_digits _) as [m|] eqn:Hm; [|left; cbn; lia].
  apply match_digits_Some in Hm as [Hd Hne].
  destruct (parseInt_digits m Hd Hne) as [-> Hpos].
  destruct m; [done|]. cbn [JS.truthy].
  destruct (of_integer_nonneg _ Hpos) as [->|(z & -> & Hz)]; [by right|by left].
Qed.

Lemma parseRatings_no_total `{Platform} html doc r :
  cheerio_load html = Ok doc -> parseRatings html = Ok r ->
  no_digits (rating_count_text doc) = true ->
  ratings_total r = JS.Num 0.
Proof.
  unfold parseRatings. intros ->. intros [= <-] Hnone. cbn [ratings_total].
  fold (rating_count_text doc). by rewrite (match_digits_none _ Hnone).
Qed.

Lemma parseRatings_histogram `{Platform} html doc r :
  cheerio_load html = Ok doc -> parseRatings html = Ok r ->
  ratings_histogram r =
    Array_reduce histogram_step 0
      (map (fun el => JS.parseInt (Dom.text [el])) (per_star_elements doc)) empty_histogram.
Proof. unfold parseRatings. intros ->. intros [= <-]. reflexivity. Qed.

(** An empty body is the not-found failure. *)
Lemma ratings_not_found `{Platform} (options : RatingsOptions) (log : list request) :
  ratings_id options ≠ 0 ->
  transport log (ratings_request options) = Ok EmptyString ->
  ratings options log = (Err (Error "App not found (404)"), log ++ [ratings_request options]).
Proof.
  intros Hid Hnet. unfold ratings, bind, doRequest, throw.
  destruct (Z.eqb_spec (ratings_id options) 0) as [?|_]; [done|].
  fold (ratings_request options). rewrite Hnet. reflexivity.
Qed.

(** On a non-empty page with at most five per-star elements, each holding
    a non-negative integer, [ratings] returns a histogram whose keys are
    exactly 1 to 5 and whose values are non-negative integers: the element
    at position [j] gives the count of [5 - j] stars, the stars without an
    element count 0. The total is 0 when the text of the total-count element
    has no digit; it is a non-negative integer, or the infinity that a run
    of digits beyond the doubles reads as. *)
Theorem ratings_on_well_formed_page `{Platform} (options : RatingsOptions)
    (log : list request) (html : string) (doc : Dom.document) :
  ratings_id options ≠ 0 ->
  transport log (ratings_request options) = Ok html ->
  html ≠ EmptyString ->
  cheerio_load html = Ok doc ->
  (length (per_star_elements doc) ≤ 5)%nat ->
  Forall (fun el => is_count (JS.parseInt (Dom.text [el]))) (per_star_elements doc) ->
  ∃ r,
    ratings options log = (Ok r, log ++ [ratings_request options])
    ∧ (no_digits (rating_count_text doc) = true -> ratings_total r = JS.Num 0)
    ∧ (is_count (ratings_total r) ∨ ratings_total r = JS.Infinity false)
    ∧ dom (ratings_histogram r) = {[ 1; 2; 3; 4; 5 ]}
    ∧ map_Forall (fun _ v => is_count v) (ratings_histogram r)
    ∧ (∀ (j : nat) el, per_star_elements doc !! j = Some el ->
         ratings_histogram r !! (5 - Z.of_nat j) = Some (JS.parseInt (Dom.text [el])))
    ∧ (∀ k, 1 ≤ k ≤ 5 - Z.of_nat (length (per_star_elements doc)) ->
         ratings_histogram r !! k = Some (JS.Num 0)).
Proof.
  intros Hid Hnet Hne Hload Hlen Hcounts.
  destruct (parseRatings html) as [r|e] eqn:Hparse;
    [|unfold parseRatings in Hparse; rewrite Hload in Hparse; discriminate].
  exists r.
  pose proof (parseRatings_histogram html doc r Hload Hparse) as Hh.
  assert (Hlookup : ∀ k, ratings_histogram r !! k =
            if decide (k ≤ 5)
            then match per_star_elements doc !! Z.to_nat (5 - k) with
                 | Some el => Some (JS.parseInt (Dom.text [el]))
                 | None => empty_histogram !! k
                 end
            else empty_histogram !! k).
  { intros k. rewrite Hh, histogram_reduce_lookup, list_lookup_fmap.
    replace (5 - k - 0) with (5 - k) by lia.
    repeat case_decide; try lia; try reflexivity.
    destruct (per_star_elements doc !! Z.to_nat (5 - k)); reflexivity. }
  split; [|split; [|split; [|split; [|split; [|split]]]]].
  - unfold ratings, bind, doRequest, throw, lift.
    destruct (Z.eqb_spec (ratings_id options) 0) as [?|_]; [done|].
    fold (ratings_request options). rewrite Hnet.
    destruct html; [done|]. cbn [String.length Nat.eqb]. by rewrite Hparse.
  - by apply (parseRatings_no_total html doc).
  - by apply (parseRatings_total html).
  - apply set_eq. intros k. rewrite elem_of_dom, Hlookup, empty_histogram_lookup.
    assert (Hk : k ∈ ({[1; 2; 3; 4; 5]} : gset Z) ↔ 1 ≤ k ≤ 5) by (set_unfold; lia).
    rewrite Hk. unfold is_Some.
    destruct (decide (k ≤ 5)) as [Hk5|Hk5].
    + destruct (per_star_elements doc !! Z.to_nat (5 - k)) as [el|] eqn:Hel.
      * apply lookup_lt_Some in Hel. split; [lia|eauto].
      * case_decide; split; try lia; eauto. intros [? ?]; discriminate.
    + rewrite decide_False by lia. split; [intros [? ?]; discriminate|lia].
  - intros k v. rewrite Hlookup, empty_histogram_lookup.
    destruct (decide (k ≤ 5)) as [Hk5|Hk5].
    + destruct (per_star_elements doc !! Z.to_nat (5 - k)) as [el|] eqn:Hel.
      * intros [= <-]. rewrite Forall_forall in Hcounts. apply Hcounts.
        eapply list_elem_of_lookup_2. exact Hel.
      * case_decide; [|discriminate]. intros [= <-]. cbn. lia.
    + rewrite decide_False by lia. discriminate.
  - intros j el Hel. rewrite Hlookup, decide_True by lia.
    replace (Z.to_nat (5 - (5 - Z.of_nat j))) with j by lia. by rewrite Hel.
  - intros k Hk. rewrite Hlookup, decide_True by lia.
    rewrite (proj2 (lookup_ge_None _ _)) by lia.
    rewrite empty_histogram_lookup, decide_True by lia. reflexivity.
Qed.

Lemma ratings_on_well_formed_page_witness :
  ∃ r, (@ratings (sample_ratings_platform three_star_counts)
          (mkRatingsOptions 553834731 None None) []).1 = Ok r
       ∧ ratings_total r = JS.Num 21
       ∧ ratings_histogram r !! 5 = Some (JS.Num 3000)
       ∧ ratings_histogram r !! 4 = Some (JS.Num 1000)
       ∧ ratings_histogram r !! 3 = Some (JS.Num 500)
       ∧ ratings_histogram r !! 2 = Some (JS.Num 0)
       ∧ ratings_histogram r !! 1 = Some (JS.Num 0)
       ∧ dom (ratings_histogram r) = {[ 1; 2; 3; 4; 5 ]}.
Proof.
  destruct (@ratings_on_well_formed_page (sample_ratings_platform three_star_counts)
              (mkRatingsOptions 553834731 None None) [] (sample_ratings_html three_star_counts)
              (sample_ratings_page three_star_counts))
    as (r & Hrun & _ & _ & Hdom & _ & Hstar & Hzero);
    [done | reflexivity | done | reflexivity | vm_compute; lia
    | repeat (constructor; [vm_compute; discriminate|]); constructor |].
  exists r. rewrite Hrun. split; [reflexivity|].
  pose proof Hrun as Hval. vm_compute in Hval.
  split; [by injection Hval as <-|].
  split; [exact (Hstar 0%nat _ eq_refl)|].
  split; [exact (Hstar 1%nat _ eq_refl)|].
  split; [exact (Hstar 2%nat _ eq_refl)|].
  split; [apply Hzero; vm_compute; split; discriminate|].
  split; [apply Hzero; vm_compute; split; discriminate|].
  exact Hdom.
Defined.

Lemma ratings_not_found_witness :
  @ratings (sample_platform (fun _ _ => Ok EmptyString) (fun _ => Ok []) [] []
              (mkSuggestResponse None))
    (mkRatingsOptions 553834731 None None) []
  = (Err (Error "App not found (404)"),
     [mkRequest "https://itunes.apple.com/us/customer-reviews/id553834731?displayable-kind=11"
        (Some (mkRequestOptions (Some {[ "X-Apple-Store-Front" := "143441,12" ]}) ∅))]).
Proof.
  rewrite (@ratings_not_found (sample_platform (fun _ _ => Ok EmptyString) (fun _ => Ok []) [] []
              (mkSuggestResponse None))
             (mkRatingsOptions 553834731 None None) []); [|done|reflexivity].
  vm_compute. reflexivity.
Defined.

(** ** Queries on a document *)

Section DomQueries.
Import Dom.

(** Induction on a node whose children satisfy the property already. *)
Lemma node_children_ind (P : node -> Prop) :
  (∀ d, P (Text d)) ->
  (∀ d, P (Comment d)) ->
  (∀ name attribs c, Forall P c -> P (Element name attribs c)) ->
  ∀ n, P n.
Proof.
  intros HT HC HE. fix IH 1. intros [d|d|name attribs c]; [apply HT|apply HC|].
  apply HE. induction c as [|k c IHc]; constructor; [apply IH|exact IHc].
Qed.

Lemma query_element s ancs name attribs c :
  query s ancs (Element name attribs c) =
    (if matches s ancs name attribs then [Element name attribs c] else [])
    ++ query_all s ((name, attribs) :: ancs) c.
Proof.
  cbn [query]. f_equal. induction c as [|k c IH]; [reflexivity|].
  cbn [query_all]. by rewrite IH.
Qed.

Lemma matches_single c ancs name attribs :
  matches [c] ancs name attribs = matches_compound c name attribs.
Proof. unfold matches. cbn. destruct ancs; apply andb_true_r. Qed.

Lemma matches_pair outer inner ancs name attribs :
  matches [outer; inner] ancs name attribs =
    matches_compound inner name attribs && ancestors_match [outer] ancs.
Proof. reflexivity. Qed.

Lemma ancestors_match_none c ancs :
  Forall (fun a => matches_compound c a.1 a.2 = false) ancs ->
  ancestors_match [c] ancs = false.
Proof.
  induction 1 as [|a ancs Ha _ IH]; [reflexivity|].
  cbn [ancestors_match]. by rewrite Ha.
Qed.

(** A one-compound selector does not look at the ancestors. *)
Lemma query_single_ancestors c n :
  ∀ ancs ancs', query [c] ancs n = query [c] ancs' n.
Proof.
  induction n as [d|d|name attribs ch IH] using node_children_ind;
    intros ancs ancs'; [reflexivity..|].
  rewrite !query_element, !matches_single. f_equal.
  generalize ((name, attribs) :: ancs) ((name, attribs) :: ancs'). intros a a'.
  induction IH as [|k ch Hk _ IHch]; [reflexivity|].
  cbn [query_all]. by rewrite (Hk a a'), IHch.
Qed.

(** Below a place where nothing matches [outer], no element is a
    descendant of an [outer]. *)
Lemma query_below_absent outer inner n :
  ∀ ancs,
    Forall (fun a => matches_compound outer a.1 a.2 = false) ancs ->
    query [outer] [] n = [] ->
    query [outer; inner] ancs n = [].
Proof.
  induction n as [d|d|name attribs ch IH] using node_children_ind;
    intros ancs Hancs Hnone; [reflexivity..|].
  rewrite query_element in Hnone. rewrite matches_single in Hnone.
  apply app_eq_nil in Hnone as [Hself Hch].
  destruct (matches_compound outer name attribs) eqn:Hm; [discriminate|].
  rewrite query_element, matches_pair, (ancestors_match_none _ _ Hancs), andb_false_r.
  cbn [app].
  assert (Hbelow : Forall (fun a => matches_compound outer a.1 a.2 = false)
                     ((name, attribs) :: ancs)) by (constructor; assumption).
  revert Hch. generalize dependent ((name, attribs) :: ancs). clear Hself.
  intros ancs' Hancs'.
  induction IH as [|k ch Hk _ IHch]; [reflexivity|].
  cbn [query_all app] in *. intros [Hk0 Hch0]%app_eq_nil.
  rewrite (Hk ancs' Hancs'), IHch; [reflexivity|exact Hch0|].
  by rewrite (query_single_ancestors outer k [] [(name, attribs)]).
Qed.

(** When no element matches [outer], the selector [outer inner] selects
    nothing. *)
Lemma select_below_absent outer inner (doc : document) :
  select [outer] doc = [] -> select [outer; inner] doc = [].
Proof.
  unfold select. induction doc as [|n doc IH]; [reflexivity|].
  cbn [query_all]. intros [Hn Hdoc]%app_eq_nil.
  by rewrite (query_below_absent outer inner n [] (Forall_nil_2 _) Hn), IH.
Qed.

End DomQueries.

(** ** The screenshot scraper *)

Lemma scrapeScreenshots_run `{Platform} appId country requestOptions log :
  scrapeScreenshots appId country requestOptions log =
    (Ok (scrape_outcome appId country requestOptions log),
     log ++ [scrape_request appId country requestOptions]).
Proof.
  unfold scrapeScreenshots, scrape_outcome. unfold_io.
  fold (scrape_request appId country requestOptions).
  destruct (transport log _) as [body|e]; [|reflexivity].
  destruct (cheerio_load body) as [doc|e]; reflexivity.
Qed.

Lemma screenshot_sources_absent cls doc :
  screenshot_container cls doc = [] -> screenshot_sources cls doc = [].
Proof. apply select_below_absent. Qed.

(** C4. [scrapeScreenshots] never throws: whatever the transport and the
    parser do, it returns a record with its three arrays. A failing fetch
    and a failing parse give three empty arrays, and on a parsed page a
    device class whose container is absent gets the empty array. *)
Theorem scrapeScreenshots_never_throws `{Platform} (appId : Z) (country : string)
    (requestOptions : option RequestOptions) (log : list request) :
  ∃ r,
    scrapeScreenshots appId country requestOptions log =
      (Ok r, log ++ [scrape_request appId country requestOptions])
    ∧ (∀ e, transport log (scrape_request appId country requestOptions) = Err e ->
         r = mkScreenshots [] [] [])
    ∧ (∀ body e,
         transport log (scrape_request appId country requestOptions) = Ok body ->
         cheerio_load body = Err e ->
         r = mkScreenshots [] [] [])
    ∧ (∀ body doc,
         transport log (scrape_request appId country requestOptions) = Ok body ->
         cheerio_load body = Ok doc ->
         (screenshot_container "shelf-grid__list--grid-type-ScreenshotPhone" doc = [] ->
            scraped_screenshots r = [])
         ∧ (screenshot_container "shelf-grid__list--grid-type-ScreenshotPad" doc = [] ->
              scraped_ipadScreenshots r = [])
         ∧ (screenshot_container "shelf-grid__list--grid-type-ScreenshotAppleTv" doc = [] ->
              scraped_appletvScreenshots r = [])).
Proof.
  exists (scrape_outcome appId country requestOptions log).
  split; [apply scrapeScreenshots_run|]. unfold scrape_outcome.
  split; [|split].
  - intros e ->. reflexivity.
  - intros body e -> ->. reflexivity.
  - intros body doc -> ->. cbn [scrape_document scraped_screenshots
      scraped_ipadScreenshots scraped_appletvScreenshots no_screenshots].
    repeat split; intros Habsent;
      by rewrite (screenshot_sources_absent _ _ Habsent).
Qed.

Lemma scrapeScreenshots_never_throws_witness :
  @scrapeScreenshots (sample_app_platform []) 6756671942 "us" None [] =
    (Ok (mkScreenshots ["https://is1-ssl.mzstatic.com/image/thumb/a/392x696bb.png"] [] []),
     [scrape_request 6756671942 "us" None])
  ∧ @scrapeScreenshots
      (sample_platform sample_net_down (fun _ => Ok []) [] [] (mkSuggestResponse None))
      6756671942 "us" None [] =
    (Ok (mkScreenshots [] [] []), [scrape_request 6756671942 "us" None]).
Proof.
  split.
  - destruct (@scrapeScreenshots_never_throws (sample_app_platform []) 6756671942 "us" None [])
      as (r & Hrun & _ & _ & Hpage).
    destruct (Hpage "<html>...</html>" sample_app_page eq_refl eq_refl)
      as (_ & Hpad & Htv).
    rewrite Hrun in *. vm_compute in Hrun. by injection Hrun as <-.
  - destruct (@scrapeScreenshots_never_throws
                (sample_platform sample_net_down (fun _ => Ok []) [] [] (mkSuggestResponse None))
                6756671942 "us" None [])
      as (r & Hrun & Hdown & _).
    rewrite Hrun. by rewrite (Hdown (Error "ENOTFOUND") eq_refl).
Defined.

(** Each array of the scraper lists a URL once: a URL is pushed only when
    the array does not hold it yet. *)
Lemma screenshot_source_NoDup urls el :
  NoDup urls -> NoDup (screenshot_source urls el).
Proof.
  intros Hurls. unfold screenshot_source.
  destruct (Dom.attr "srcset" [el]) as [srcset|]; [|exact Hurls].
  destruct (JS.truthy srcset); [|exact Hurls].
  destruct (extractScreenshotUrl srcset) as [url|]; [|exact Hurls].
  destruct (JS.truthy url); [|exact Hurls]. cbn [andb].
  destruct (bool_decide_reflect (url ∈ urls)) as [Hin|Hout]; [exact Hurls|].
  cbn [negb]. apply NoDup_app. split; [exact Hurls|].
  split; [|apply NoDup_singleton].
  intros x Hx ->%list_elem_of_singleton. contradiction.
Qed.

Lemma screenshot_loop_NoDup sources :
  ∀ urls, NoDup urls -> NoDup (fold_left screenshot_source sources urls).
Proof.
  induction sources as [|el sources IH]; intros urls Hurls; [exact Hurls|].
  cbn [fold_left]. apply IH. by apply screenshot_source_NoDup.
Qed.

(** Whatever the transport and the parser do, the three arrays that the
    scraper returns hold no URL twice. *)
Theorem scrapeScreenshots_no_duplicates `{Platform} (appId : Z) (country : string)
    (requestOptions : option RequestOptions) (log : list request) :
  ∃ r,
    (scrapeScreenshots appId country requestOptions log).1 = Ok r
    ∧ NoDup (scraped_screenshots r)
    ∧ NoDup (scraped_ipadScreenshots r)
    ∧ NoDup (scraped_appletvScreenshots r).
Proof.
  rewrite scrapeScreenshots_run. eexists. split; [reflexivity|].
  unfold scrape_outcome.
  destruct (transport log _) as [body|e]; [|repeat split; apply NoDup_nil_2].
  destruct (cheerio_load body) as [doc|e]; [|repeat split; apply NoDup_nil_2].
  repeat split; apply screenshot_loop_NoDup, NoDup_nil_2.
Qed.

(** ** The enrichment orchestrator *)

Lemma screenshot_fallback_run `{Platform} appData country requestOptions log :
  screenshot_fallback appData country requestOptions log =
    if hasNoScreenshots appData
    then (Ok (set_screenshots appData
                (scrape_outcome (id appData) country requestOptions log)),
          log ++ [scrape_request (id appData) country requestOptions])
    else (Ok appData, log).
Proof.
  unfold screenshot_fallback. destruct (hasNoScreenshots appData); [|reflexivity].
  unfold bind. by rewrite scrapeScreenshots_run.
Qed.

Lemma hasNoScreenshots_spec appData :
  hasNoScreenshots appData = true
  <-> screenshots appData = [] ∧ ipadScreenshots appData = []
      ∧ appletvScreenshots appData = [].
Proof.
  unfold hasNoScreenshots.
  destruct (screenshots appData), (ipadScreenshots appData), (appletvScreenshots appData);
    cbn; intuition congruence.
Qed.

Lemma rating_enrichment_run `{Platform} includeRatings appData country requestOptions log :
  rating_enrichment includeRatings appData country requestOptions log =
    if includeRatings
    then match ratings (enrichment_options appData country requestOptions) log with
         | (Ok ratingsData, log') =>
             (Ok (set_histogram appData (ratings_histogram ratingsData)), log')
         | (Err _, log') => (Ok appData, log')
         end
    else (Ok appData, log).
Proof.
  unfold rating_enrichment. destruct includeRatings; [|reflexivity].
  unfold try_catch, bind, enrichment_options.
  destruct (ratings _ log) as [[ratingsData|e] log']; reflexivity.
Qed.

(** The requests of [ratings]: none when the identifier is 0, one otherwise. *)
Lemma ratings_log `{Platform} options log :
  (ratings options log).2 =
    log ++ (if ratings_id options =? 0 then [] else [ratings_request options]).
Proof.
  unfold ratings, bind, doRequest, throw, lift.
  destruct (ratings_id options =? 0); [by rewrite app_nil_r|].
  fold (ratings_request options).
  destruct (transport log _) as [html|e]; [|reflexivity].
  destruct (String.length html =? 0)%nat; reflexivity.
Qed.

Lemma ratings_run `{Platform} options log :
  ratings options log =
    if ratings_id options =? 0 then (Err (Error "id is required"), log)
    else match transport log (ratings_request options) with
         | Ok html =>
             if (String.length html =? 0)%nat
             then (Err (Error "App not found (404)"), log ++ [ratings_request options])
             else (parseRatings html, log ++ [ratings_request options])
         | Err e => (Err e, log ++ [ratings_request options])
         end.
Proof.
  unfold ratings. unfold_io.
  destruct (ratings_id options =? 0); [reflexivity|].
  fold (ratings_request options).
  destruct (transport log _) as [html|e]; [|reflexivity].
  destruct (String.length html =? 0)%nat; reflexivity.
Qed.

(** After a lookup that found an entry, [app] is the fallback followed by
    the enrichment. *)
Lemma app_run `{Platform} options log0 appData rest log1 a' log2 :
  required_ok options ->
  lookup_of options log0 = (Ok (appData :: rest), log1) ->
  screenshot_fallback appData (default "us" (app_country options))
    (app_requestOptions options) log1 = (Ok a', log2) ->
  app options log0 =
    rating_enrichment (app_ratings options) a' (default "us" (app_country options))
      (app_requestOptions options) log2.
Proof.
  unfold required_ok, lookup_of. intros Hreq Hlookup Hfb.
  unfold app, lift. unfold bind at 1. rewrite Hreq.
  unfold bind at 1. rewrite Hlookup.
  unfold bind at 1. rewrite Hfb.
  unfold bind, ret.
  destruct (rating_enrichment _ _ _ _ _) as [[r|e] log']; reflexivity.
Qed.

(** The ways in which [ratings] fails. *)
Lemma ratings_fails_iff `{Platform} options log e :
  (ratings options log).1 = Err e
  <-> (ratings_id options = 0 ∧ e = Error "id is required")
      ∨ (ratings_id options ≠ 0 ∧ transport log (ratings_request options) = Err e)
      ∨ (ratings_id options ≠ 0 ∧ transport log (ratings_request options) = Ok EmptyString
         ∧ e = Error "App not found (404)")
      ∨ (ratings_id options ≠ 0
         ∧ ∃ html, transport log (ratings_request options) = Ok html
                   ∧ html ≠ EmptyString ∧ cheerio_load html = Err e).
Proof.
  rewrite ratings_run.
  destruct (Z.eqb_spec (ratings_id options) 0) as [Hid|Hid]; cbn [fst].
  { split; [intros [= <-]; by left|].
    intros [[_ ->]|[[? _]|[[? _]|[? _]]]]; done. }
  destruct (transport log _) as [html|e'] eqn:Hnet; cbn [fst].
  - destruct html as [|a html]; cbn [String.length Nat.eqb fst].
    + split; [intros [= <-]; right; right; by left|].
      intros [[? _]|[[_ ?]|[(_ & _ & ->)|(_ & html & [= <-] & ? & _)]]]; done.
    + unfold parseRatings. destruct (cheerio_load (String a html)) as [doc|e''] eqn:Hload.
      * split; [discriminate|].
        intros [[? _]|[[_ ?]|[(_ & ? & _)|(_ & html' & [= <-] & _ & Hfail)]]]; try done.
        rewrite Hload in Hfail. discriminate.
      * split.
        -- intros [= <-]. right; right; right. split; [exact Hid|].
           by exists (String a html).
        -- intros [[? _]|[[_ ?]|[(_ & ? & _)|(_ & html' & [= <-] & _ & Hfail)]]]; try done.
           rewrite Hload in Hfail. by injection Hfail as <-.
  - split; [intros [= <-]; right; by left|].
    intros [[? _]|[[_ [= <-]]|[(_ & ? & _)|(_ & html & ? & _)]]]; done.
Qed.

(** C3, amended. When the lookup found an entry and the histogram was
    asked for, a failure of the [ratings] call does not fail [app]: it
    returns the record as the screenshot step left it, with the identifier
    and the other fields of the lookup, and with the histogram as the lookup
    left it, that is absent when the lookup set none. The call fails without
    identifier, on the exception of the transport, on an empty body and on
    the exception of the parser, and in no other case: a page that is not
    empty and is parsed is no failure, whatever markup it lacks, and then the
    record has a histogram, the zero-filled one when the page has no
    per-star element. *)
Theorem app_survives_failed_enrichment `{Platform} (options : AppOptions)
    (log0 : list request) (appData : App) (rest : list App) (log1 : list request) :
  required_ok options ->
  lookup_of options log0 = (Ok (appData :: rest), log1) ->
  app_ratings options = true ->
  ∃ a' log2,
    let asked :=
      enrichment_options a' (default "us" (app_country options))
        (app_requestOptions options) in
    screenshot_fallback appData (default "us" (app_country options))
      (app_requestOptions options) log1 = (Ok a', log2)
    ∧ (∀ e,
         (ratings asked log2).1 = Err e ->
         ∃ log',
           app options log0 = (Ok a', log')
           ∧ id a' = id appData
           ∧ app_fields a' = app_fields appData
           ∧ histogram a' = histogram appData
           ∧ (histogram appData = None -> histogram a' = None))
    ∧ (∀ e,
         (ratings asked log2).1 = Err e
         <-> (id a' = 0 ∧ e = Error "id is required")
             ∨ (id a' ≠ 0 ∧ transport log2 (ratings_request asked) = Err e)
             ∨ (id a' ≠ 0 ∧ transport log2 (ratings_request asked) = Ok EmptyString
                ∧ e = Error "App not found (404)")
             ∨ (id a' ≠ 0
                ∧ ∃ html, transport log2 (ratings_request asked) = Ok html
                          ∧ html ≠ EmptyString ∧ cheerio_load html = Err e))
    ∧ (∀ html doc,
         id a' ≠ 0 ->
         transport log2 (ratings_request asked) = Ok html ->
         html ≠ EmptyString ->
         cheerio_load html = Ok doc ->
         ∃ r h,
           app options log0 = (Ok r, log2 ++ [ratings_request asked])
           ∧ histogram r = Some h
           ∧ (per_star_elements doc = [] -> h = empty_histogram)).
Proof.
  intros Hreq Hlookup Hinc.
  pose proof (screenshot_fallback_run appData (default "us" (app_country options))
                (app_requestOptions options) log1) as Hfb.
  assert (Hpage : ∀ a' log2 html doc,
            screenshot_fallback appData (default "us" (app_country options))
              (app_requestOptions options) log1 = (Ok a', log2) ->
            id a' ≠ 0 ->
            transport log2 (ratings_request
              (enrichment_options a' (default "us" (app_country options))
                 (app_requestOptions options))) = Ok html ->
            html ≠ EmptyString ->
            cheerio_load html = Ok doc ->
            ∃ r h,
              app options log0 =
                (Ok r, log2 ++ [ratings_request
                   (enrichment_options a' (default "us" (app_country options))
                      (app_requestOptions options))])
              ∧ histogram r = Some h
              ∧ (per_star_elements doc = [] -> h = empty_histogram)).
  { intros a' log2 html doc Hstep Hid Hnet Hne Hload.
    rewrite (app_run _ _ _ _ _ _ _ Hreq Hlookup Hstep), rating_enrichment_run, Hinc.
    rewrite ratings_run, Hnet. cbn [ratings_id enrichment_options].
    destruct (Z.eqb_spec (id a') 0) as [?|_]; [done|].
    destruct html as [|c html]; [done|]. cbn [String.length Nat.eqb].
    destruct (parseRatings (String c html)) as [ratingsData|e] eqn:Hparse;
      [|unfold parseRatings in Hparse; rewrite Hload in Hparse; discriminate].
    eexists; eexists. split; [reflexivity|]. split; [reflexivity|].
    intros Hnone. rewrite (parseRatings_histogram _ _ _ Hload Hparse), Hnone. reflexivity. }
  destruct (hasNoScreenshots appData);
    (eexists; eexists; cbv zeta; split; [exact Hfb|]);
    (split; [|split; [intros e; apply ratings_fails_iff
                     |intros html doc; apply (Hpage _ _ html doc Hfb)]]);
    intros e Hfail;
    rewrite (app_run _ _ _ _ _ _ _ Hreq Hlookup Hfb), rating_enrichment_run, Hinc;
    destruct (ratings _ _) as [[ratingsData|e'] log']; cbn in Hfail; try discriminate;
    (eexists; split; [reflexivity|]); cbn; auto.
Qed.

Lemma app_survives_failed_enrichment_witness :
  ∃ log',
    @app (sample_app_platform [sample_app]) (sample_app_options true) [] =
      (Ok (mkApp 6756671942 ["https://is1-ssl.mzstatic.com/image/thumb/a/392x696bb.png"]
             [] [] None [("title", JString "Bygone")]),
       log').
Proof.
  destruct (@app_survives_failed_enrichment (sample_app_platform [sample_app])
              (sample_app_options true) [] sample_app [] [])
    as (a' & log2 & Hfb & Hfail & _); [reflexivity..|].
  vm_compute in Hfb. injection Hfb as <- <-.
  destruct (Hfail (Error "ETIMEDOUT")) as (log' & Hrun & _); [vm_compute; reflexivity|].
  exists log'. exact Hrun.
Defined.

(** C3 fails as worded on missing markup: the ratings page of that platform
    is not empty and has neither total-count nor per-star element, and [app]
    returns the record with the zero-filled histogram, not without
    histogram. *)
Lemma missing_markup_is_no_failure :
  @app sample_unrated_platform (mkAppOptions (Some 479516143) None None None true None) [] =
    (Ok (mkApp 479516143 [] ["https://is1-ssl.mzstatic.com/image/thumb/b/552x414bb.jpg"] []
           (Some empty_histogram) [("title", JString "Minecraft")]),
     [mkRequest "https://itunes.apple.com/us/customer-reviews/id479516143?displayable-kind=11"
        (Some (mkRequestOptions (Some {[ "X-Apple-Store-Front" := "143441,12" ]}) ∅))])
  ∧ per_star_elements [Dom.Element "html" [] [Dom.Element "body" [] []]] = []
  ∧ Dom.select [Dom.class "rating-count"] [Dom.Element "html" [] [Dom.Element "body" [] []]]
    = []
  ∧ Some empty_histogram ≠ (None : option RatingHistogram).
Proof.
  split; [vm_compute; reflexivity|]. split; [reflexivity|]. split; [reflexivity|].
  discriminate.
Qed.

Lemma rating_enrichment_frame `{Platform} includeRatings appData country requestOptions log :
  ∃ r,
    rating_enrichment includeRatings appData country requestOptions log =
      (Ok r, log ++ enrichment_requests includeRatings appData country requestOptions)
    ∧ id r = id appData
    ∧ screenshots r = screenshots appData
    ∧ ipadScreenshots r = ipadScreenshots appData
    ∧ appletvScreenshots r = appletvScreenshots appData
    ∧ app_fields r = app_fields appData.
Proof.
  rewrite rating_enrichment_run. unfold enrichment_requests.
  destruct includeRatings; [|exists appData; by rewrite app_nil_r].
  pose proof (ratings_log (enrichment_options appData country requestOptions) log) as Hlog.
  cbn [ratings_id enrichment_options] in Hlog.
  destruct (ratings _ log) as [[ratingsData|e] log']; cbn [snd] in Hlog; subst log';
    eexists; (split; [reflexivity|]); cbn; auto.
Qed.

(** C5. In [app], after a lookup that found an entry, the page is scraped
    if and only if the three screenshot arrays of the lookup are empty. If
    they are, one request for the detail page follows the lookup and the
    three fields are what the scraper returned, empty or not; if one of them
    is not, no request is made for the page and the three fields are the
    ones of the lookup. The step leaves the identifier, the histogram and
    every other field alone; the only other request of [app] is the one
    of the rating enrichment. *)
Theorem screenshot_fallback_iff_all_empty `{Platform} (options : AppOptions)
    (log0 : list request) (appData : App) (rest : list App) (log1 : list request) :
  let country := default "us" (app_country options) in
  let requestOptions := app_requestOptions options in
  required_ok options ->
  lookup_of options log0 = (Ok (appData :: rest), log1) ->
  ∃ a' log2 r,
    screenshot_fallback appData country requestOptions log1 = (Ok a', log2)
    ∧ app options log0 =
        (Ok r, log2 ++ enrichment_requests (app_ratings options) a' country requestOptions)
    ∧ (hasNoScreenshots appData = true
       <-> screenshots appData = [] ∧ ipadScreenshots appData = []
           ∧ appletvScreenshots appData = [])
    ∧ (hasNoScreenshots appData = true ->
         ∃ scraped,
           scrapeScreenshots (id appData) country requestOptions log1 = (Ok scraped, log2)
           ∧ log2 = log1 ++ [scrape_request (id appData) country requestOptions]
           ∧ screenshots r = scraped_screenshots scraped
           ∧ ipadScreenshots r = scraped_ipadScreenshots scraped
           ∧ appletvScreenshots r = scraped_appletvScreenshots scraped)
    ∧ (hasNoScreenshots appData = false ->
         log2 = log1
         ∧ screenshots r = screenshots appData
         ∧ ipadScreenshots r = ipadScreenshots appData
         ∧ appletvScreenshots r = appletvScreenshots appData)
    ∧ id a' = id appData
    ∧ histogram a' = histogram appData
    ∧ app_fields a' = app_fields appData
    ∧ id r = id appData
    ∧ app_fields r = app_fields appData.
Proof.
  intros country requestOptions Hreq Hlookup.
  pose proof (screenshot_fallback_run appData country requestOptions log1) as Hfb.
  pose proof (hasNoScreenshots_spec appData) as Hspec.
  destruct (hasNoScreenshots appData) eqn:Hnone.
  - destruct (rating_enrichment_frame (app_ratings options)
                (set_screenshots appData (scrape_outcome (id appData) country requestOptions log1))
                country requestOptions
                (log1 ++ [scrape_request (id appData) country requestOptions]))
      as (r & Hrun & Hid & Hs & Hi & Ht & Hf).
    eexists; eexists; exists r. split; [exact Hfb|].
    split; [by rewrite (app_run _ _ _ _ _ _ _ Hreq Hlookup Hfb)|].
    split; [exact Hspec|].
    split; [|split; [discriminate|by rewrite Hid, Hf]].
    intros _. eexists. split; [apply scrapeScreenshots_run|].
    rewrite Hs, Hi, Ht. by cbn.
  - destruct (rating_enrichment_frame (app_ratings options) appData country requestOptions log1)
      as (r & Hrun & Hid & Hs & Hi & Ht & Hf).
    eexists; eexists; exists r. split; [exact Hfb|].
    split; [by rewrite (app_run _ _ _ _ _ _ _ Hreq Hlookup Hfb)|].
    split; [exact Hspec|].
    split; [discriminate|]. by rewrite Hs, Hi, Ht, Hid, Hf.
Qed.

Lemma screenshot_fallback_iff_all_empty_witness :
  (∃ r, @app (sample_app_platform [sample_app]) (sample_app_options false) [] =
          (Ok r, [scrape_request 6756671942 "us" None])
        ∧ screenshots r = ["https://is1-ssl.mzstatic.com/image/thumb/a/392x696bb.png"]
        ∧ ipadScreenshots r = [] ∧ appletvScreenshots r = [])
  ∧ (∃ r, @app (sample_app_platform [sample_app_with_screenshot])
            (sample_app_options false) [] = (Ok r, [])
          ∧ screenshots r = []
          ∧ ipadScreenshots r = ["https://is1-ssl.mzstatic.com/image/thumb/b/552x414bb.jpg"]
          ∧ appletvScreenshots r = []).
Proof.
  split.
  - destruct (@screenshot_fallback_iff_all_empty (sample_app_platform [sample_app])
                (sample_app_options false) [] sample_app [] [])
      as (a' & log2 & r & Hfb & Hrun & _ & Hscraped & _); [reflexivity..|].
    destruct (Hscraped eq_refl) as (scraped & Hscrape & Hlog & Hs & Hi & Ht).
    vm_compute in Hscrape. injection Hscrape as <- <-.
    exists r. split; [exact Hrun|]. rewrite Hs, Hi, Ht. repeat split.
  - destruct (@screenshot_fallback_iff_all_empty
                (sample_app_platform [sample_app_with_screenshot])
                (sample_app_options false) [] sample_app_with_screenshot [] [])
      as (a' & log2 & r & Hfb & Hrun & _ & _ & Hkept & _); [reflexivity..|].
    destruct (Hkept eq_refl) as (Hlog & Hs & Hi & Ht). subst log2.
    exists r. split; [exact Hrun|]. rewrite Hs, Hi, Ht. repeat split.
Defined.

(** A lookup that finds no entry is the not-found failure of [app]; no
    further request is made. *)
Theorem app_not_found `{Platform} (options : AppOptions) (log0 log1 : list request) :
  required_ok options ->
  lookup_of options log0 = (Ok [], log1) ->
  app options log0 =
    (Err (Error ("App not found: " +:+ ident_to_string (id_or_appId options))), log1).
Proof.
  unfold required_ok, lookup_of. intros Hreq Hlookup.
  unfold app, lift. unfold bind at 1. rewrite Hreq.
  unfold bind at 1. rewrite Hlookup. reflexivity.
Qed.

Lemma app_not_found_witness :
  @app (sample_app_platform []) (sample_app_options true) [] =
    (Err (Error "App not found: 6756671942"), []).
Proof.
  rewrite (@app_not_found (sample_app_platform []) (sample_app_options true) [] []);
    reflexivity.
Defined.

(** ** Loops that push onto an array *)

Lemma fold_left_push {A B} (f : A -> B) (l : list A) :
  ∀ acc, fold_left (fun acc x => acc ++ [f x]) l acc = acc ++ map f l.
Proof.
  induction l as [|x l IH]; intros acc; cbn; [by rewrite app_nil_r|].
  by rewrite IH, <- app_assoc.
Qed.

(** A loop body that only appends: the loop appends what each round
    appends, in the order of the rounds. *)
Lemma fold_left_append {A B} (step : list B -> A -> list B) (emit : A -> list B)
    (l : list A) :
  (∀ acc x, step acc x = acc ++ emit x) ->
  ∀ acc, fold_left step l acc = acc ++ concat (map emit l).
Proof.
  intros Hstep. induction l as [|x l IH]; intros acc; cbn; [by rewrite app_nil_r|].
  by rewrite IH, Hstep, <- app_assoc.
Qed.

Lemma concat_map_option {A B} (f : A -> option B) (l : list A) :
  concat (map (fun x => option_list (f x)) l) = omap f l.
Proof.
  induction l as [|x l IH]; [reflexivity|]. csimpl. rewrite IH.
  by destruct (f x).
Qed.

(** ** Privacy details *)

Lemma privacy_category_emits purpose acc category :
  privacy_category purpose acc category =
    acc ++ option_list (category_record purpose category).
Proof.
  unfold privacy_category, category_record, emits, record_of, category_title, data_types,
    data_type_items.
  rewrite fold_left_push. cbn [app].
  destruct (_ && _); cbn; [reflexivity|by rewrite app_nil_r].
Qed.

Lemma privacy_section_emits acc section :
  privacy_section acc section =
    acc ++ omap (category_record (purpose_of section)) (category_items section).
Proof.
  unfold privacy_section. fold (purpose_of section). fold (category_items section).
  rewrite (fold_left_append _ _ _ (privacy_category_emits (purpose_of section))).
  by rewrite concat_map_option.
Qed.

Lemma privacy_records_emitted doc :
  privacy_records doc =
    concat (map (fun section =>
                   omap (category_record (purpose_of section)) (category_items section))
              (purpose_sections doc)).
Proof.
  unfold privacy_records.
  by rewrite (fold_left_append _ _ _ privacy_section_emits).
Qed.

Lemma privacy_policy_link_none links :
  Forall (fun el => is_policy_link el = false) links ->
  privacy_policy_link links None = None.
Proof.
  induction 1 as [|el links Hel _ IH]; [reflexivity|].
  cbn [privacy_policy_link]. unfold is_policy_link in Hel.
  destruct (Dom.attr "aria-label" [el]) as [ariaLabel|]; [|exact IH].
  by rewrite Hel.
Qed.

Lemma privacy_run `{Platform} options log :
  privacy options log =
    if page_id options =? 0 then (Err (Error "id is required"), log)
    else match transport log (page_request options) with
         | Ok body =>
             match cheerio_load body with
             | Ok doc => (Ok (privacy_of_document doc), log ++ [page_request options])
             | Err e => (Err e, log ++ [page_request options])
             end
         | Err e => (Err e, log ++ [page_request options])
         end.
Proof.
  unfold privacy. unfold_io.
  destruct (page_id options =? 0); [reflexivity|].
  fold (page_request options).
  destruct (transport log _) as [body|e]; [|reflexivity].
  destruct (cheerio_load body); reflexivity.
Qed.

(** C6. The result of [privacy] never holds an empty URL nor an empty list
    of privacy types: a page without a privacy-policy link gives no
    [privacyPolicyUrl] field, and a page from which no record is extracted
    (in particular one without purpose section) gives no [privacyTypes]
    field. On a fetched and parsed page [privacy] returns the result read
    from that page. *)
Theorem privacy_omits_empty_fields `{Platform} :
  (∀ doc,
     privacyPolicyUrl (privacy_of_document doc) ≠ Some EmptyString
     ∧ privacyTypes (privacy_of_document doc) ≠ Some []
     ∧ (Forall (fun el => is_policy_link el = false) (external_links doc) ->
          privacyPolicyUrl (privacy_of_document doc) = None)
     ∧ (privacy_records doc = [] -> privacyTypes (privacy_of_document doc) = None)
     ∧ (purpose_sections doc = [] -> privacyTypes (privacy_of_document doc) = None))
  ∧ (∀ options log body doc,
       page_id options ≠ 0 ->
       transport log (page_request options) = Ok body ->
       cheerio_load body = Ok doc ->
       privacy options log = (Ok (privacy_of_document doc), log ++ [page_request options]))
  ∧ (∀ options log,
       match (privacy options log).1 with
       | Ok r => privacyPolicyUrl r ≠ Some EmptyString ∧ privacyTypes r ≠ Some []
       | Err _ => True
       end).
Proof.
  assert (Hdoc : ∀ doc,
     privacyPolicyUrl (privacy_of_document doc) ≠ Some EmptyString
     ∧ privacyTypes (privacy_of_document doc) ≠ Some []
     ∧ (Forall (fun el => is_policy_link el = false) (external_links doc) ->
          privacyPolicyUrl (privacy_of_document doc) = None)
     ∧ (privacy_records doc = [] -> privacyTypes (privacy_of_document doc) = None)
     ∧ (purpose_sections doc = [] -> privacyTypes (privacy_of_document doc) = None)).
  { intros doc. unfold privacy_of_document.
    fold (external_links doc). fold (purpose_sections doc). fold (privacy_records doc).
    cbn [privacyPolicyUrl privacyTypes].
    split; [|split; [|split; [|split]]].
    - destruct (privacy_policy_link _ None) as [[|a u]|]; cbn; congruence.
    - destruct (privacy_records doc); cbn; congruence.
    - intros Hnone. by rewrite (privacy_policy_link_none _ Hnone).
    - intros ->. reflexivity.
    - unfold privacy_records. intros ->. reflexivity. }
  split; [exact Hdoc|]. split.
  { intros options log body doc Hid Hnet Hload. rewrite privacy_run, Hnet, Hload.
    by destruct (Z.eqb_spec (page_id options) 0). }
  intros options log. rewrite privacy_run.
  destruct (page_id options =? 0); [exact I|].
  destruct (transport log _) as [body|e]; [|exact I].
  destruct (cheerio_load body) as [doc|e]; [|exact I].
  cbn [fst]. destruct (Hdoc doc) as (Hurl & Htypes & _). by split.
Qed.

Lemma privacy_omits_empty_fields_witness :
  @privacy (sample_page_platform sample_privacy_page) (mkPageOptions 553834731 None None) [] =
    (Ok (mkPrivacyDetails (Some "https://example.com/privacy") (Some sample_privacy_records)),
     [mkRequest "https://apps.apple.com/us/app/id553834731" None])
  ∧ @privacy (sample_page_platform []) (mkPageOptions 553834731 None None) [] =
      (Ok (mkPrivacyDetails None None),
       [mkRequest "https://apps.apple.com/us/app/id553834731" None]).
Proof.
  split.
  - destruct (@privacy_omits_empty_fields (sample_page_platform sample_privacy_page))
      as (_ & Hrun & _).
    rewrite (Hrun (mkPageOptions 553834731 None None) [] "<html>...</html>"
               sample_privacy_page); [vm_compute; reflexivity|done|reflexivity..].
  - destruct (@privacy_omits_empty_fields (sample_page_platform [])) as (_ & Hrun & _).
    rewrite (Hrun (mkPageOptions 553834731 None None) [] "<html>...</html>" []);
      [vm_compute; reflexivity|done|reflexivity..].
Defined.

(** *** One record per category item *)

Lemma omap_guard {A B} (guard : A -> bool) (f : A -> B) (l : list A) :
  omap (fun x => if guard x then Some (f x) else None) l
  = map f (filter (fun x => guard x = true) l).
Proof.
  induction l as [|x l IH]; [reflexivity|]. csimpl. rewrite IH.
  rewrite filter_cons. destruct (guard x); [by rewrite decide_True|by rewrite decide_False].
Qed.

(** C7 fails as worded: on that page the category item declares a data
    type, yet no record is emitted and the result has no [privacyTypes]. *)
Lemma untitled_category_is_dropped :
  map (fun sc => [purpose_of sc.1]) (categories_where declares_data_type untitled_category_page)
    = [["Analytics"]]
  ∧ privacy_records untitled_category_page = []
  ∧ privacyTypes (privacy_of_document untitled_category_page) = None
  ∧ ¬ one_record_per_declaring_category untitled_category_page.
Proof.
  assert (H1 : map (fun sc => [purpose_of sc.1])
                 (categories_where declares_data_type untitled_category_page)
               = [["Analytics"]]) by (vm_compute; reflexivity).
  assert (H2 : privacy_records untitled_category_page = []) by (vm_compute; reflexivity).
  split; [exact H1|]. split; [exact H2|]. split; [vm_compute; reflexivity|].
  unfold one_record_per_declaring_category. rewrite H1, H2. discriminate.
Qed.

Lemma privacy_records_where doc :
  privacy_records doc =
    map (fun sc => record_of (purpose_of sc.1) sc.2) (categories_where emits doc).
Proof.
  rewrite privacy_records_emitted. unfold categories_where.
  induction (purpose_sections doc) as [|section sections IH]; [reflexivity|].
  cbn [map concat]. rewrite map_app, <- IH. f_equal.
  unfold category_record. rewrite omap_guard, map_map. reflexivity.
Qed.

Lemma elem_of_concat {A} (x : A) (ls : list (list A)) :
  x ∈ concat ls <-> ∃ l, x ∈ l ∧ l ∈ ls.
Proof.
  induction ls as [|l ls IH]; cbn [concat].
  - split; [by intros ?%not_elem_of_nil|by intros (? & _ & ?%not_elem_of_nil)].
  - rewrite elem_of_app, IH. split.
    + intros [Hx|(l' & Hx & Hl')]; [exists l|exists l']; split; auto; by constructor.
    + intros (l' & Hx & [->|Hl']%elem_of_cons); [by left|right; by exists l'].
Qed.

Lemma categories_where_elem keep doc section category :
  (section, category) ∈ categories_where keep doc
  <-> section ∈ purpose_sections doc ∧ category ∈ category_items section
      ∧ keep category = true.
Proof.
  unfold categories_where. rewrite elem_of_concat. split.
  - intros (l & Hin & Hl). apply list_elem_of_fmap in Hl as (s & -> & Hs).
    apply list_elem_of_fmap in Hin as (c & [= -> ->] & Hc).
    apply list_elem_of_filter in Hc as [Hkeep Hc]. auto.
  - intros (Hs & Hc & Hkeep).
    exists (map (pair section)
              (filter (fun category => keep category = true) (category_items section))).
    split.
    + apply list_elem_of_fmap. exists category. split; [reflexivity|].
      apply list_elem_of_filter. auto.
    + apply list_elem_of_fmap. exists section. auto.
Qed.

Lemma emits_spec category :
  emits category = true
  <-> category_title category ≠ EmptyString ∧ data_type_items category ≠ [].
Proof.
  unfold emits, data_types. rewrite length_map.
  destruct (category_title category), (data_type_items category); cbn;
    intuition congruence.
Qed.

(** C7, amended. The records are, in the order of the two loops, one for
    each pair of a purpose section and a category item of it that has a
    title that is not empty and at least one data-type child; each holds the
    purpose of its section as its only purpose, the title and the data types
    of its item. A category item without data-type child, and so a section
    that has only such items, adds nothing, and none of this is an error:
    the result lists the records, or has no [privacyTypes] when there is
    none. *)
Theorem privacy_record_per_titled_category (doc : Dom.document) :
  privacy_records doc
    = map (fun sc => record_of (purpose_of sc.1) sc.2) (categories_where emits doc)
  ∧ map purposes (privacy_records doc)
    = map (fun sc => [purpose_of sc.1]) (categories_where emits doc)
  ∧ (∀ section category,
       (section, category) ∈ categories_where emits doc
       <-> section ∈ purpose_sections doc ∧ category ∈ category_items section
           ∧ category_title category ≠ EmptyString ∧ data_type_items category ≠ [])
  ∧ (∀ purpose acc category,
       data_type_items category = [] -> privacy_category purpose acc category = acc)
  ∧ (∀ acc section,
       Forall (fun category => data_type_items category = []) (category_items section) ->
       privacy_section acc section = acc)
  ∧ privacyTypes (privacy_of_document doc)
    = match privacy_records doc with
      | [] => None
      | records => Some records
      end.
Proof.
  split; [apply privacy_records_where|].
  split; [rewrite privacy_records_where, map_map; reflexivity|].
  split; [intros section category; rewrite categories_where_elem, emits_spec; tauto|].
  assert (Hcat : ∀ purpose acc category,
            data_type_items category = [] -> privacy_category purpose acc category = acc).
  { intros purpose acc category Hnone.
    rewrite privacy_category_emits. unfold category_record.
    destruct (emits category) eqn:He; [|apply app_nil_r].
    apply emits_spec in He as [_ He]. done. }
  split; [exact Hcat|]. split.
  - intros acc section Hall. unfold privacy_section.
    fold (purpose_of section). fold (category_items section).
    revert acc. induction Hall as [|category categories Hc _ IH]; intros acc; [reflexivity|].
    cbn [fold_left]. by rewrite (Hcat _ _ _ Hc).
  - unfold privacy_of_document. fold (purpose_sections doc). fold (privacy_records doc).
    cbn [privacyTypes]. by destruct (privacy_records doc).
Qed.

Lemma privacy_record_per_titled_category_witness :
  privacy_records sample_privacy_page = sample_privacy_records
  ∧ privacyTypes (privacy_of_document sample_privacy_page) = Some sample_privacy_records.
Proof.
  destruct (privacy_record_per_titled_category sample_privacy_page)
    as (Hrecords & _ & _ & _ & _ & Hresult).
  rewrite Hresult, Hrecords. split; vm_compute; reflexivity.
Defined.

(** ** Trimming *)

Lemma trimStart_head s :
  match JS.trimStart s with
  | String a _ => JS.is_space a = false
  | EmptyString => True
  end.
Proof.
  induction s as [|a s IH]; [exact I|]. cbn [JS.trimStart].
  destruct (JS.is_space a) eqn:Ha; [exact IH|exact Ha].
Qed.

Lemma trimEnd_cons a s :
  JS.is_space a = false -> JS.trimEnd (String a s) = String a (JS.trimEnd s).
Proof. intros Ha. cbn [JS.trimEnd]. rewrite Ha. by destruct (JS.trimEnd s). Qed.

Lemma trimEnd_idempotent s : JS.trimEnd (JS.trimEnd s) = JS.trimEnd s.
Proof.
  induction s as [|a s IH]; [reflexivity|]. cbn [JS.trimEnd].
  destruct (JS.trimEnd s) as [|b r] eqn:Hr.
  - destruct (JS.is_space a) eqn:Ha; [reflexivity|]. cbn [JS.trimEnd]. by rewrite Ha.
  - cbn [JS.trimEnd] in *. by rewrite IH.
Qed.

(** A trimmed string is left alone by [trim]. *)
Lemma trim_idempotent s : JS.trim (JS.trim s) = JS.trim s.
Proof.
  unfold JS.trim. pose proof (trimStart_head s) as Hhead.
  destruct (JS.trimStart s) as [|a t]; [reflexivity|].
  rewrite (trimEnd_cons a t Hhead). cbn [JS.trimStart]. rewrite Hhead.
  rewrite (trimEnd_cons a _ Hhead). by rewrite trimEnd_idempotent.
Qed.

Lemma truthy_nonempty s : JS.truthy s = true <-> s ≠ EmptyString.
Proof. destruct s; cbn; intuition congruence. Qed.

(** ** Version history *)

Lemma versionHistory_run `{Platform} options log :
  versionHistory options log =
    if page_id options =? 0 then (Err (Error "id is required"), log)
    else match transport log (page_request options) with
         | Ok body =>
             match cheerio_load body with
             | Ok doc => (Ok (versionHistory_of_document doc), log ++ [page_request options])
             | Err e => (Err e, log ++ [page_request options])
             end
         | Err e => (Err e, log ++ [page_request options])
         end.
Proof.
  unfold versionHistory. unfold_io.
  destruct (page_id options =? 0); [reflexivity|].
  fold (page_request options).
  destruct (transport log _) as [body|e]; [|reflexivity].
  destruct (cheerio_load body); reflexivity.
Qed.

(** C9. On a fetched and parsed page, [versionHistory] returns one entry
    for each article block, in the order of the document. The entry of a
    block holds its trimmed version label, the value of the date attribute,
    or the empty string when the attribute is absent, and its release notes:
    the trimmed text of the notes nodes when that is not empty, and no notes
    otherwise, so never the empty string, and none when the block has no
    notes node. *)
Theorem versionHistory_entries `{Platform} (options : PageOptions) (log : list request)
    (body : string) (doc : Dom.document) :
  page_id options ≠ 0 ->
  transport log (page_request options) = Ok body ->
  cheerio_load body = Ok doc ->
  versionHistory options log =
    (Ok (map version_entry (version_articles doc)), log ++ [page_request options])
  ∧ ∀ article,
      versionDisplay (version_entry article) = version_label article
      ∧ releaseDate (version_entry article) = default EmptyString (date_attribute article)
      ∧ (date_attribute article = None -> releaseDate (version_entry article) = EmptyString)
      ∧ (notes_nodes article = [] -> releaseNotes (version_entry article) = None)
      ∧ releaseNotes (version_entry article) ≠ Some EmptyString
      ∧ (∀ notes, releaseNotes (version_entry article) = Some notes
           <-> notes = JS.trim (Dom.text (notes_nodes article)) ∧ notes ≠ EmptyString)
      ∧ (JS.trim (Dom.text (notes_nodes article)) = EmptyString ->
           releaseNotes (version_entry article) = None)
      ∧ (∀ notes, releaseNotes (version_entry article) = Some notes ->
           JS.trim notes = notes).
Proof.
  intros Hid Hnet Hload. split.
  - rewrite versionHistory_run, Hnet, Hload.
    destruct (Z.eqb_spec (page_id options) 0) as [?|_]; [done|].
    unfold versionHistory_of_document. by rewrite fold_left_push.
  - intros article. unfold version_entry.
    fold (notes_nodes article) (version_label article) (date_attribute article).
    cbn [versionDisplay releaseDate releaseNotes].
    split; [reflexivity|]. split; [|split; [|split; [|split; [|split; [|split]]]]].
    + destruct (date_attribute article) as [[|a d]|]; reflexivity.
    + intros ->. reflexivity.
    + intros ->. reflexivity.
    + destruct (JS.trim _); cbn; congruence.
    + intros notes. destruct (JS.trim (Dom.text (notes_nodes article))) eqn:Ht; cbn.
      * split; [discriminate|]. by intros [-> ?].
      * split; [by intros [= <-]|]. by intros [-> _].
    + intros ->. reflexivity.
    + intros notes. destruct (JS.trim (Dom.text (notes_nodes article))) eqn:Ht;
        cbn; [discriminate|]. intros [= <-].
      rewrite <- Ht. apply trim_idempotent.
Qed.

Lemma versionHistory_entries_witness :
  @versionHistory (sample_page_platform sample_version_page)
    (mkPageOptions 553834731 None None) [] =
    (Ok [mkVersionHistory "2.0" "2024-05-01T00:00:00.000Z" (Some "Bug fixes.");
         mkVersionHistory "1.0" "" None],
     [mkRequest "https://apps.apple.com/us/app/id553834731" None]).
Proof.
  destruct (@versionHistory_entries (sample_page_platform sample_version_page)
              (mkPageOptions 553834731 None None) [] "<html>...</html>" sample_version_page)
    as [Hrun _]; [done | reflexivity | reflexivity |].
  rewrite Hrun. vm_compute. reflexivity.
Defined.

(** ** Suggestions *)

Lemma suggest_dict_emits suggestions dict :
  suggest_dict suggestions dict = suggestions ++ option_list (suggestion_of dict).
Proof.
  unfold suggest_dict, suggestion_of, first_string.
  destruct (dict_string dict) as [[s|[|s l]]|]; cbn; try (by rewrite app_nil_r);
    destruct (JS.truthy s); cbn; by rewrite ?app_nil_r.
Qed.

Lemma suggest_of_dicts result dicts :
  array_of result = Some (ArrayObject (Some dicts)) ->
  suggest_of_response result = omap suggestion_of dicts.
Proof.
  unfold suggest_of_response. fold (array_of result). intros ->.
  rewrite (fold_left_append _ _ _ suggest_dict_emits). cbn [app].
  apply concat_map_option.
Qed.

Lemma suggest_run `{Platform} options log :
  suggest options log =
    if negb (JS.truthy (suggest_term options)) then (Err (Error "term is required"), log)
    else match transport log (suggest_request options) with
         | Ok body =>
             match XMLParser_parse body with
             | Ok parsedData =>
                 match suggestResponseSchema parsedData with
                 | inl message =>
                     (Err (Error ("Suggest API response validation failed: " +:+ message)),
                      log ++ [suggest_request options])
                 | inr result =>
                     (Ok (suggest_of_response result), log ++ [suggest_request options])
                 end
             | Err e => (Err e, log ++ [suggest_request options])
             end
         | Err e => (Err e, log ++ [suggest_request options])
         end.
Proof.
  unfold suggest. unfold_io.
  destruct (negb _); [reflexivity|].
  fold (suggest_request options).
  destruct (transport log _) as [body|e]; [|reflexivity].
  destruct (XMLParser_parse body) as [parsedData|e]; [|reflexivity].
  destruct (suggestResponseSchema parsedData); reflexivity.
Qed.

(** C8. On a validated response [suggest] returns, without error, the
    suggestions decoded from it: a scalar [string] field is read as the
    sequence of that one string; each suggestion has for term the first
    string of its dict, in the order of the dicts; an array that is a bare
    string, or has no [dict], or is missing, gives the empty list; and the
    response with the single dict [minecraft] gives the one suggestion
    [minecraft]. *)
Theorem suggest_decodes_first_strings `{Platform} (options : SuggestOptions)
    (log : list request) (body : string) (parsedData : json) (result : SuggestResponse) :
  JS.truthy (suggest_term options) = true ->
  transport log (suggest_request options) = Ok body ->
  XMLParser_parse body = Ok parsedData ->
  suggestResponseSchema parsedData = inr result ->
  suggest options log = (Ok (suggest_of_response result), log ++ [suggest_request options])
  ∧ (∀ suggestions s,
       suggest_dict suggestions (mkSuggestDict (Some (Scalar s)))
       = suggest_dict suggestions (mkSuggestDict (Some (Sequence [s]))))
  ∧ (∀ dicts, array_of result = Some (ArrayObject (Some dicts)) ->
       suggest_of_response result = omap suggestion_of dicts
       ∧ map (fun s => Some (term s)) (suggest_of_response result)
         = map first_string (filter (fun d => is_Some (suggestion_of d)) dicts))
  ∧ (∀ s, array_of result = Some (ArrayString s) -> suggest_of_response result = [])
  ∧ (array_of result = Some (ArrayObject None) -> suggest_of_response result = [])
  ∧ (array_of result = None -> suggest_of_response result = [])
  ∧ suggest_of_response minecraft_response = [mkSuggestion "minecraft"].
Proof.
  intros Hterm Hnet Hxml Hschema.
  split; [by rewrite suggest_run, Hterm, Hnet, Hxml, Hschema|].
  split; [reflexivity|].
  split; [|unfold suggest_of_response at 1 2 3; fold (array_of result);
           split; [intros s ->; reflexivity|];
           split; [intros ->; reflexivity|];
           split; [intros ->; reflexivity|reflexivity]].
  intros dicts Harray. rewrite (suggest_of_dicts _ _ Harray). split; [reflexivity|].
  clear Harray. induction dicts as [|d dicts IH]; [reflexivity|].
  csimpl. rewrite filter_cons.
  destruct (suggestion_of d) as [sg|] eqn:Hd.
  - rewrite decide_True by eauto. cbn [map]. rewrite IH. f_equal.
    unfold suggestion_of in Hd. destruct (first_string d) as [s|]; [|discriminate].
    destruct (JS.truthy s); [|discriminate]. by injection Hd as <-.
  - rewrite decide_False by (by intros [? ?]). exact IH.
Qed.

Lemma suggest_decodes_first_strings_witness :
  ∃ sent,
    @suggest sample_suggest_platform (mkSuggestOptions "min" None) [] =
      (Ok [mkSuggestion "minecraft"], [sent]).
Proof.
  destruct (@suggest_decodes_first_strings sample_suggest_platform
              (mkSuggestOptions "min" None) [] "<plist>...</plist>" JNull minecraft_response)
    as (Hrun & _); [reflexivity..|].
  eexists. rewrite Hrun. reflexivity.
Defined.

(** C10. A dict whose first string is missing or empty adds nothing to
    the suggestions and raises nothing, so every suggestion that [suggest]
    returns has a term that is not empty; on a validated response it does
    return the decoded list. *)
Theorem suggest_terms_non_empty `{Platform} :
  (∀ suggestions dict,
     first_string dict = None ∨ first_string dict = Some EmptyString ->
     suggest_dict suggestions dict = suggestions)
  ∧ (∀ result, Forall (fun s => term s ≠ EmptyString) (suggest_of_response result))
  ∧ (∀ options log body parsedData result,
       JS.truthy (suggest_term options) = true ->
       transport log (suggest_request options) = Ok body ->
       XMLParser_parse body = Ok parsedData ->
       suggestResponseSchema parsedData = inr result ->
       suggest options log = (Ok (suggest_of_response result), log ++ [suggest_request options]))
  ∧ (∀ options log,
       match (suggest options log).1 with
       | Ok suggestions => Forall (fun s => term s ≠ EmptyString) suggestions
       | Err _ => True
       end).
Proof.
  assert (Hall : ∀ result,
            Forall (fun s => term s ≠ EmptyString) (suggest_of_response result)).
  { intros result. destruct (array_of result) as [[s|[dicts|]]|] eqn:Harray;
      try (unfold suggest_of_response; fold (array_of result); rewrite Harray; constructor).
    rewrite (suggest_of_dicts _ _ Harray).
    apply Forall_forall. intros s (d & _ & Hd)%list_elem_of_omap.
    unfold suggestion_of in Hd. destruct (first_string d) as [t|]; [|discriminate].
    destruct (JS.truthy t) eqn:Ht; [|discriminate].
    injection Hd as <-. cbn. by apply truthy_nonempty. }
  split; [|split; [exact Hall|split]].
  - intros suggestions dict Hfirst. rewrite suggest_dict_emits. unfold suggestion_of.
    destruct Hfirst as [-> | ->]; apply app_nil_r.
  - intros options log body parsedData result Hterm Hnet Hxml Hschema.
    by rewrite suggest_run, Hterm, Hnet, Hxml, Hschema.
  - intros options log. rewrite suggest_run.
    destruct (negb _); [exact I|].
    destruct (transport log _) as [body|e]; [|exact I].
    destruct (XMLParser_parse body) as [parsedData|e]; [|exact I].
    destruct (suggestResponseSchema parsedData) as [message|result]; [exact I|].
    apply Hall.
Qed.

Lemma suggest_terms_non_empty_witness :
  ∃ sent,
    @suggest (sample_platform (fun _ _ => Ok "<plist>...</plist>") (fun _ => Ok []) [] []
                sample_hints)
      (mkSuggestOptions "min" None) [] =
      (Ok [mkSuggestion "minecraft"; mkSuggestion "minesweeper"], [sent]).
Proof.
  destruct (@suggest_terms_non_empty
              (sample_platform (fun _ _ => Ok "<plist>...</plist>") (fun _ => Ok []) [] []
                 sample_hints))
    as (_ & _ & Hrun & _).
  eexists.
  rewrite (Hrun (mkSuggestOptions "min" None) [] "<plist>...</plist>" JNull sample_hints);
    reflexivity.
Defined.

(** * Properties of the whole operations *)

(** ** What each operation does, step by step *)

Lemma search_run `{Platform} options log :
  search options log =
    if negb (JS.truthy (search_term options)) then (Err (Error "term is required"), log)
    else match transport log (search_request options) with
         | Ok body =>
             match JSON_parse body with
             | Ok parsedData =>
                 match iTunesLookupResponseSchema parsedData with
                 | inl message =>
                     (Err (Error ("Search API response validation failed: " +:+ message)),
                      log ++ [search_request options])
                 | inr response =>
                     (Ok (found_in options (page_of options response)),
                      log ++ [search_request options])
                 end
             | Err e => (Err e, log ++ [search_request options])
             end
         | Err e => (Err e, log ++ [search_request options])
         end.
Proof.
  unfold search. unfold_io.
  destruct (negb _); [reflexivity|].
  fold (search_request options).
  destruct (transport log _) as [body|e]; [|reflexivity].
  destruct (JSON_parse body) as [parsedData|e]; [|reflexivity].
  destruct (iTunesLookupResponseSchema parsedData) as [message|response]; [reflexivity|].
  unfold found_in, page_of, software_entries.
  destruct (search_idsOnly options); reflexivity.
Qed.

(** ** Requests *)

(** Each of [search], [ratings], [privacy] and [versionHistory] sends one
    request when its required input is there, and none when it is missing,
    whether it then succeeds or fails. *)
Theorem operations_send_at_most_one_request `{Platform} (log : list request) :
  (∀ options,
     (search options log).2 =
       log ++ (if JS.truthy (search_term options) then [search_request options] else []))
  ∧ (∀ options,
       (ratings options log).2 =
         log ++ (if ratings_id options =? 0 then [] else [ratings_request options]))
  ∧ (∀ options,
       (privacy options log).2 =
         log ++ (if page_id options =? 0 then [] else [page_request options]))
  ∧ (∀ options,
       (versionHistory options log).2 =
         log ++ (if page_id options =? 0 then [] else [page_request options])).
Proof.
  split; [|split; [|split]]; intros options.
  - rewrite search_run. destruct (JS.truthy _); cbn [negb]; [|by rewrite app_nil_r].
    destruct (transport log _) as [body|e]; [|reflexivity].
    destruct (JSON_parse body) as [parsedData|e]; [|reflexivity].
    by destruct (iTunesLookupResponseSchema parsedData).
  - apply ratings_log.
  - rewrite privacy_run. destruct (page_id options =? 0); [by rewrite app_nil_r|].
    destruct (transport log _) as [body|e]; [|reflexivity].
    by destruct (cheerio_load body).
  - rewrite versionHistory_run. destruct (page_id options =? 0); [by rewrite app_nil_r|].
    destruct (transport log _) as [body|e]; [|reflexivity].
    by destruct (cheerio_load body).
Qed.

(** ** Failures that reach the caller *)

(** [search] fails with the first of: a missing term, the exception of the
    transport, the exception of the JSON parser, a validation failure that
    carries the message of the schema. It returns entries only when all four
    steps pass, and then the entries of the requested page. *)
Theorem search_failure_modes `{Platform} (options : SearchOptions) (log : list request) :
  (search_term options = EmptyString ->
     search options log = (Err (Error "term is required"), log))
  ∧ (∀ e, JS.truthy (search_term options) = true ->
       transport log (search_request options) = Err e ->
       search options log = (Err e, log ++ [search_request options]))
  ∧ (∀ body e, JS.truthy (search_term options) = true ->
       transport log (search_request options) = Ok body ->
       JSON_parse body = Err e ->
       search options log = (Err e, log ++ [search_request options]))
  ∧ (∀ body parsedData message, JS.truthy (search_term options) = true ->
       transport log (search_request options) = Ok body ->
       JSON_parse body = Ok parsedData ->
       iTunesLookupResponseSchema parsedData = inl message ->
       search options log =
         (Err (Error ("Search API response validation failed: " +:+ message)),
          log ++ [search_request options]))
  ∧ (∀ found log', search options log = (Ok found, log') ->
       JS.truthy (search_term options) = true
       ∧ ∃ body parsedData response,
           transport log (search_request options) = Ok body
           ∧ JSON_parse body = Ok parsedData
           ∧ iTunesLookupResponseSchema parsedData = inr response
           ∧ found = found_in options (page_of options response)).
Proof.
  rewrite search_run. split; [by intros ->|].
  split; [by intros e -> ->|]. split; [by intros body e -> -> ->|].
  split; [by intros body parsedData message -> -> -> ->|].
  intros found log'. destruct (JS.truthy _); cbn [negb]; [|discriminate].
  destruct (transport log _) as [body|e]; [|discriminate].
  destruct (JSON_parse body) as [parsedData|e] eqn:Hjson; [|discriminate].
  destruct (iTunesLookupResponseSchema parsedData) as [message|response] eqn:Hschema;
    [discriminate|].
  intros [= <- <-]. split; [reflexivity|]. by exists body, parsedData, response.
Qed.

Lemma search_failure_modes_witness :
  @search (sample_platform sample_net_down (fun _ => Ok []) sample_entries []
             (mkSuggestResponse None))
    sample_search_options [] =
    (Err (Error "ENOTFOUND"),
     [mkRequest "https://itunes.apple.com/search?term=minecraft&country=us&media=software&entity=software&limit=4"
        None]).
Proof.
  destruct (@search_failure_modes
              (sample_platform sample_net_down (fun _ => Ok []) sample_entries []
                 (mkSuggestResponse None))
              sample_search_options []) as (_ & Hnet & _).
  rewrite (Hnet (Error "ENOTFOUND")); reflexivity.
Defined.

(** The three operations that read one page, [ratings], [privacy] and
    [versionHistory], do not swallow a failure: without identifier they
    report it before any request, and the exception of the transport or of
    the HTML parser is the exception they throw. *)
Theorem page_operations_failure_modes `{Platform} (log : list request) :
  (∀ options, ratings_id options = 0 ->
     ratings options log = (Err (Error "id is required"), log))
  ∧ (∀ options, page_id options = 0 ->
       privacy options log = (Err (Error "id is required"), log)
       ∧ versionHistory options log = (Err (Error "id is required"), log))
  ∧ (∀ options e, ratings_id options ≠ 0 ->
       transport log (ratings_request options) = Err e ->
       ratings options log = (Err e, log ++ [ratings_request options]))
  ∧ (∀ options e, page_id options ≠ 0 ->
       transport log (page_request options) = Err e ->
       privacy options log = (Err e, log ++ [page_request options])
       ∧ versionHistory options log = (Err e, log ++ [page_request options]))
  ∧ (∀ options html e, ratings_id options ≠ 0 ->
       transport log (ratings_request options) = Ok html ->
       html ≠ EmptyString ->
       cheerio_load html = Err e ->
       ratings options log = (Err e, log ++ [ratings_request options]))
  ∧ (∀ options body e, page_id options ≠ 0 ->
       transport log (page_request options) = Ok body ->
       cheerio_load body = Err e ->
       privacy options log = (Err e, log ++ [page_request options])
       ∧ versionHistory options log = (Err e, log ++ [page_request options])).
Proof.
  split; [intros options Hid; by rewrite ratings_run, Hid|].
  split; [intros options Hid; by rewrite privacy_run, versionHistory_run, Hid|].
  split.
  { intros options e Hid Hnet. rewrite ratings_run, Hnet.
    by destruct (Z.eqb_spec (ratings_id options) 0). }
  split.
  { intros options e Hid Hnet. rewrite privacy_run, versionHistory_run, Hnet.
    by destruct (Z.eqb_spec (page_id options) 0). }
  split.
  { intros options html e Hid Hnet Hne Hload. rewrite ratings_run, Hnet.
    destruct (Z.eqb_spec (ratings_id options) 0) as [?|_]; [done|].
    destruct html; [done|]. cbn [String.length Nat.eqb].
    unfold parseRatings. by rewrite Hload. }
  intros options body e Hid Hnet Hload.
  rewrite privacy_run, versionHistory_run, Hnet, Hload.
  by destruct (Z.eqb_spec (page_id options) 0).
Qed.

Lemma page_operations_failure_modes_witness :
  @privacy (sample_platform sample_net_down (fun _ => Ok []) [] [] (mkSuggestResponse None))
    (mkPageOptions 553834731 None None) [] =
    (Err (Error "ENOTFOUND"), [mkRequest "https://apps.apple.com/us/app/id553834731" None])
  ∧ @versionHistory (sample_page_platform []) (mkPageOptions 0 None None) [] =
      (Err (Error "id is required"), []).
Proof.
  split.
  - destruct (@page_operations_failure_modes
                (sample_platform sample_net_down (fun _ => Ok []) [] [] (mkSuggestResponse None))
                []) as (_ & _ & _ & Hnet & _).
    destruct (Hnet (mkPageOptions 553834731 None None) (Error "ENOTFOUND")) as [Hp _];
      [done|reflexivity|]. rewrite Hp. reflexivity.
  - destruct (@page_operations_failure_modes (sample_page_platform []) [])
      as (_ & Hid & _).
    destruct (Hid (mkPageOptions 0 None None)) as [_ Hv]; [reflexivity|]. exact Hv.
Defined.

(** ** The pages of a search at the ends of the list *)

Lemma page_of_window options response :
  1 ≤ default 1 (search_page options) -> 1 ≤ default 50 (search_num options) ->
  page_of options response =
    take (Z.to_nat (default 50 (search_num options)))
      (drop (Z.to_nat ((default 1 (search_page options) - 1) * default 50 (search_num options)))
         (software_entries response)).
Proof. intros Hpage Hnum. unfold page_of. apply Array_slice_window; nia. Qed.

(** On a validated answer [search] returns the requested page of the
    software entries, and
    - when the catalogue honours the limit, the page is all that follows the
      earlier pages: the upper bound of the slice cuts nothing;
    - a page that starts at or after the end of the software entries is
      empty, not an error;
    - the earlier pages followed by the page are the first [page * num]
      software entries, so pages neither overlap nor skip an entry;
    - page 0, and a page size of 0, give the empty page. *)
Theorem search_pages_at_the_ends `{Platform} (options : SearchOptions)
    (log : list request) (body : string) (parsedData : json)
    (response : ITunesLookupResponse) :
  let num := default 50 (search_num options) in
  let page := default 1 (search_page options) in
  JS.truthy (search_term options) = true ->
  transport log (search_request options) = Ok body ->
  JSON_parse body = Ok parsedData ->
  iTunesLookupResponseSchema parsedData = inr response ->
  search options log =
    (Ok (found_in options (page_of options response)), log ++ [search_request options])
  ∧ (1 ≤ page -> 1 ≤ num ->
       Z.of_nat (length (results response)) ≤ page * num ->
       page_of options response =
         drop (Z.to_nat ((page - 1) * num)) (software_entries response))
  ∧ (1 ≤ page -> 1 ≤ num ->
       Z.of_nat (length (software_entries response)) ≤ (page - 1) * num ->
       page_of options response = [])
  ∧ (1 ≤ page -> 1 ≤ num ->
       take (Z.to_nat ((page - 1) * num)) (software_entries response)
       ++ page_of options response
       = take (Z.to_nat (page * num)) (software_entries response))
  ∧ (page = 0 -> page_of options response = [])
  ∧ (num = 0 -> page_of options response = []).
Proof.
  intros num page Hterm Hnet Hjson Hschema.
  split; [by rewrite search_run, Hterm, Hnet, Hjson, Hschema|].
  split; [|split; [|split; [|split]]].
  - intros Hpage Hnum Hlimit. rewrite page_of_window by assumption. fold num page.
    apply take_ge. rewrite length_drop.
    pose proof (length_filter (fun app => kind app = Some "software") (results response)).
    unfold software_entries. nia.
  - intros Hpage Hnum Hend. rewrite page_of_window by assumption. fold num page.
    rewrite drop_ge by lia. apply take_nil.
  - intros Hpage Hnum. rewrite page_of_window by assumption. fold num page.
    rewrite take_take_drop. f_equal. nia.
  - intros Hzero. unfold page_of, Array_slice. fold num page. rewrite Hzero.
    replace ((0 - 1) * num + num) with 0 by lia.
    apply length_zero_iff_nil. rewrite length_take.
    destruct ((0 - 1) * num <? 0) eqn:Hs; cbn [Z.ltb Z.compare]; lia.
  - intros Hzero. unfold page_of, Array_slice. fold num page. rewrite Hzero.
    replace ((page - 1) * 0 + 0) with 0 by lia. replace ((page - 1) * 0) with 0 by lia.
    cbn [Z.ltb Z.compare]. apply length_zero_iff_nil. rewrite length_take. lia.
Qed.

Lemma search_pages_at_the_ends_witness :
  ∃ sent,
    @search sample_search_platform
      (mkSearchOptions "minecraft" (Some 2) (Some 4) None None true None) [] =
      (Ok (Ids []), [sent])
    ∧ @search sample_search_platform
        (mkSearchOptions "minecraft" (Some 2) (Some 3) None None true None) [] =
        (Ok (Ids [50]), [mkRequest "https://itunes.apple.com/search?term=minecraft&country=us&media=software&entity=software&limit=6" None]).
Proof.
  eexists. split.
  - destruct (@search_pages_at_the_ends sample_search_platform
                (mkSearchOptions "minecraft" (Some 2) (Some 4) None None true None) []
                "{}" JNull (mkITunesLookupResponse sample_entries))
      as (Hrun & _ & Hend & _); [reflexivity..|].
    rewrite Hrun, Hend; [reflexivity|vm_compute; discriminate..].
  - destruct (@search_pages_at_the_ends sample_search_platform
                (mkSearchOptions "minecraft" (Some 2) (Some 3) None None true None) []
                "{}" JNull (mkITunesLookupResponse sample_entries))
      as (Hrun & Hlimit & _); [reflexivity..|].
    rewrite Hrun, Hlimit; [reflexivity|vm_compute; discriminate..].
Defined.

(** ** The request of [ratings] *)

(** With an identifier that is exact as a double, [ratings] sends its one
    request to the reviews page of the country and of the identifier, and
    answers from what the transport returns for that request. The request
    carries the store-front header of the country, unless the caller set
    that header: a header of the caller wins, and the caller's other headers
    and options are passed on unchanged. *)
Theorem ratings_request_headers `{Platform} (options : RatingsOptions) (log : list request) :
  ratings_id options ≠ 0 ->
  Z.abs (ratings_id options) ≤ JS.MAX_SAFE_INTEGER ->
  ∃ sent_headers,
    let sent :=
      mkRequest
        ("https://itunes.apple.com/" +:+ default "us" (ratings_country options)
         +:+ "/customer-reviews/id" +:+ pretty (ratings_id options)
         +:+ "?displayable-kind=11")
        (Some (mkRequestOptions (Some sent_headers)
                 (other_options (given_options options)))) in
    (ratings options log).2 = log ++ [sent]
    ∧ (∀ e, transport log sent = Err e -> (ratings options log).1 = Err e)
    ∧ (∀ html, transport log sent = Ok html -> html ≠ EmptyString ->
         (ratings options log).1 = parseRatings html)
    ∧ (∀ k v, given_headers options !! k = Some v -> sent_headers !! k = Some v)
    ∧ (given_headers options !! "X-Apple-Store-Front" = None ->
         sent_headers !! "X-Apple-Store-Front"
         = Some (storeId (default "us" (ratings_country options)) +:+ ",12"))
    ∧ (∀ k, k ≠ "X-Apple-Store-Front" -> sent_headers !! k = given_headers options !! k).
Proof.
  intros Hid Hsafe.
  assert (Hsent : ratings_request options =
            mkRequest
              ("https://itunes.apple.com/" +:+ default "us" (ratings_country options)
               +:+ "/customer-reviews/id" +:+ pretty (ratings_id options)
               +:+ "?displayable-kind=11")
              (Some (mkRequestOptions
                       (Some (given_headers options
                              ∪ {[ "X-Apple-Store-Front" :=
                                     storeId (default "us" (ratings_country options))
                                     +:+ ",12" ]}))
                       (other_options (given_options options))))).
  { unfold ratings_request, ratings_url. by rewrite (ToString_safe _ Hsafe). }
  eexists. cbv zeta. rewrite <- Hsent, ratings_run.
  destruct (Z.eqb_spec (ratings_id options) 0) as [?|_]; [done|].
  split; [by destruct (transport log _) as [[|a html]|e]|].
  split; [by intros e ->|]. split.
  { intros html -> Hne. by destruct html. }
  split; [|split].
  - intros k v Hk. by apply lookup_union_Some_l.
  - intros Hnone. rewrite lookup_union_r by exact Hnone. apply lookup_singleton_eq.
  - intros k Hk. rewrite lookup_union, lookup_singleton_ne by done.
    by destruct (given_headers options !! k).
Qed.

Lemma ratings_request_headers_witness :
  ∃ sent_headers,
    (@ratings sample_unrated_platform
       (mkRatingsOptions 553834731 (Some "gb")
          (Some (mkRequestOptions
                   (Some {[ "X-Apple-Store-Front" := "143444,24"; "Accept" := "text/html" ]})
                   {[ "timeout" := "3000" ]})))
       []).2
    = [mkRequest "https://itunes.apple.com/gb/customer-reviews/id553834731?displayable-kind=11"
         (Some (mkRequestOptions (Some sent_headers) {[ "timeout" := "3000" ]}))]
    ∧ sent_headers !! "X-Apple-Store-Front" = Some "143444,24"
    ∧ sent_headers !! "Accept" = Some "text/html".
Proof.
  destruct (@ratings_request_headers sample_unrated_platform
              (mkRatingsOptions 553834731 (Some "gb")
                 (Some (mkRequestOptions
                          (Some {[ "X-Apple-Store-Front" := "143444,24";
                                   "Accept" := "text/html" ]})
                          {[ "timeout" := "3000" ]})))
              [])
    as (sent_headers & Hlog & _ & _ & Hgiven & _); [done|vm_compute; discriminate|].
  exists sent_headers. split; [exact Hlog|].
  split; apply Hgiven; vm_compute; reflexivity.
Defined.

(** ** The total count of [parseRatings] *)

Lemma span_digits_app ds rest :
  all_digits ds = true -> starts_with_digit rest = false ->
  JS.span_digits (ds +:+ rest) = (ds, rest).
Proof.
  intros Hds Hrest. induction ds as [|a ds IH].
  - change (EmptyString +:+ rest) with rest.
    destruct rest as [|b rest]; [reflexivity|]. cbn in *. by rewrite Hrest.
  - change (String a ds +:+ rest) with (String a (ds +:+ rest)).
    cbn in Hds. apply andb_true_iff in Hds as [Ha Hds].
    cbn [JS.span_digits]. by rewrite Ha, (IH Hds).
Qed.

Lemma match_digits_first_run pre ds rest :
  no_digits pre = true -> all_digits ds = true -> ds ≠ EmptyString ->
  starts_with_digit rest = false ->
  JS.match_digits (pre +:+ ds +:+ rest) = Some ds.
Proof.
  intros Hpre Hds Hne Hrest. induction pre as [|a pre IH].
  - destruct ds as [|d ds]; [done|]. pose proof Hds as Hd. cbn in Hd.
    apply andb_true_iff in Hd as [Hd _].
    change (EmptyString +:+ String d ds +:+ rest) with (String d (ds +:+ rest)).
    cbn [JS.match_digits]. rewrite Hd.
    change (String d (ds +:+ rest)) with (String d ds +:+ rest).
    by rewrite (span_digits_app _ _ Hds Hrest).
  - cbn in Hpre. apply andb_true_iff in Hpre as [Ha Hpre].
    change (String a pre +:+ ds +:+ rest) with (String a (pre +:+ ds +:+ rest)).
    cbn [JS.match_digits]. destruct (JS.is_digit a); [discriminate|]. by apply IH.
Qed.

(** The total count that [parseRatings] returns is the number written by
    the first run of digits in the text of the total-count element, and 0
    when that text has no digit: what follows the run, such as the digits
    after a thousands separator, is not read. A number above
    [MAX_SAFE_INTEGER] is read as the double nearest to it, and as the
    infinity beyond the doubles. *)
Theorem ratings_total_is_first_digit_run `{Platform} (html : string) (doc : Dom.document) :
  cheerio_load html = Ok doc ->
  ∃ r,
    parseRatings html = Ok r
    ∧ (no_digits (rating_count_text doc) = true -> ratings_total r = JS.Num 0)
    ∧ (∀ pre ds rest,
         rating_count_text doc = pre +:+ ds +:+ rest ->
         no_digits pre = true -> all_digits ds = true -> ds ≠ EmptyString ->
         starts_with_digit rest = false ->
         (JS.decimal 0 ds ≤ JS.MAX_SAFE_INTEGER -> ratings_total r = JS.Num (JS.decimal 0 ds))
         ∧ ratings_total r = JS.of_integer (JS.decimal 0 ds)
         ∧ (is_count (ratings_total r) ∨ ratings_total r = JS.Infinity false)).
Proof.
  intros Hload. unfold parseRatings. rewrite Hload. eexists. split; [reflexivity|].
  cbn [ratings_total]. fold (rating_count_text doc). split.
  - intros Hnone. by rewrite (match_digits_none _ Hnone).
  - intros pre ds rest -> Hpre Hds Hne Hrest.
    rewrite (match_digits_first_run _ _ _ Hpre Hds Hne Hrest).
    destruct (parseInt_digits ds Hds Hne) as [-> Hpos].
    assert (Htruthy : JS.truthy ds = true) by (by destruct ds). rewrite Htruthy.
    split; [intros Hsafe; apply of_integer_safe; lia|]. split; [reflexivity|].
    destruct (of_integer_nonneg _ Hpos) as [->|(z & -> & Hz)]; [by right|by left].
Qed.

Lemma ratings_total_is_first_digit_run_witness :
  (∃ r,
     @parseRatings (sample_page_platform sample_separator_page) "<html>...</html>" = Ok r
     ∧ ratings_total r = JS.Num 1)
  ∧ (∃ r,
       @parseRatings (sample_page_platform sample_large_total_page) "<html>...</html>" = Ok r
       ∧ ratings_total r = JS.Num 9007199254740992).
Proof.
  split.
  - destruct (@ratings_total_is_first_digit_run (sample_page_platform sample_separator_page)
                "<html>...</html>" sample_separator_page eq_refl)
      as (r & Hrun & _ & Hfirst).
    exists r. split; [exact Hrun|].
    destruct (Hfirst EmptyString "1" ",234 Ratings") as (Hsafe & _); [done..|].
    apply Hsafe. vm_compute. discriminate.
  - destruct (@ratings_total_is_first_digit_run (sample_page_platform sample_large_total_page)
                "<html>...</html>" sample_large_total_page eq_refl)
      as (r & Hrun & _ & Hfirst).
    exists r. split; [exact Hrun|].
    destruct (Hfirst EmptyString "9007199254740993" " Ratings") as (_ & -> & _); done.
Defined.

(** ** The policy link of [privacy] *)

Lemma privacy_policy_link_first before el after :
  Forall (fun x => is_policy_link x = false) before ->
  is_policy_link el = true ->
  privacy_policy_link (before ++ el :: after) None = Dom.attr "href" [el].
Proof.
  intros Hbefore Hel. induction Hbefore as [|x before Hx _ IH].
  - rewrite app_nil_l. cbn [privacy_policy_link]. unfold is_policy_link in Hel.
    destruct (Dom.attr "aria-label" [el]) as [ariaLabel|]; [|discriminate].
    by rewrite Hel.
  - rewrite <- app_comm_cons. cbn [privacy_policy_link]. unfold is_policy_link in Hx.
    destruct (Dom.attr "aria-label" [x]) as [ariaLabel|]; [|exact IH].
    by rewrite Hx.
Qed.

(** The first external link whose label holds the phrase decides the
    policy URL, and the links after it are not looked at: the URL is its
    address, and is absent when that link has no address or an empty one,
    whatever the later links hold. *)
Theorem privacy_first_policy_link_wins (doc : Dom.document) (before : Dom.selection)
    (el : Dom.node) (after : Dom.selection) :
  external_links doc = before ++ el :: after ->
  Forall (fun x => is_policy_link x = false) before ->
  is_policy_link el = true ->
  privacyPolicyUrl (privacy_of_document doc) =
    match Dom.attr "href" [el] with
    | Some address => if JS.truthy address then Some address else None
    | None => None
    end.
Proof.
  intros Hlinks Hbefore Hel. unfold privacy_of_document. fold (external_links doc).
  cbn [privacyPolicyUrl]. rewrite Hlinks, (privacy_policy_link_first _ _ _ Hbefore Hel).
  destruct (Dom.attr "href" [el]) as [address|]; [|reflexivity]. cbn.
  by destruct (JS.truthy address).
Qed.

Lemma privacy_first_policy_link_wins_witness :
  privacyPolicyUrl (privacy_of_document sample_two_links_page) = None.
Proof.
  rewrite (privacy_first_policy_link_wins sample_two_links_page
             [Dom.Element "a" [("data-test-id", "external-link"); ("aria-label", "Support")]
                [Dom.Text "Support"]]
             (Dom.Element "a"
                [("data-test-id", "external-link"); ("aria-label", "Privacy Policy")]
                [Dom.Text "Policy"])
             [Dom.Element "a"
                [("data-test-id", "external-link"); ("aria-label", "Privacy Policy");
                 ("href", "https://example.com/privacy")]
                [Dom.Text "Policy"]]);
    [reflexivity | vm_compute; reflexivity | by repeat constructor | reflexivity].
Defined.

(** ** The records of [privacy] *)

Lemma data_types_trimmed category :
  Forall (fun d => JS.trim d = d) (data_types category).
Proof.
  unfold data_types. apply Forall_fmap, Forall_true. intros li. apply trim_idempotent.
Qed.

(** Every privacy-type record that [privacy] returns is complete: its name
    is trimmed and not empty and is also its type, it lists at least one
    data category, each trimmed, and it has exactly one purpose, the one its
    description names. *)
Theorem privacy_records_are_complete (doc : Dom.document) :
  Forall (fun r =>
            name r ≠ EmptyString
            ∧ JS.trim (name r) = name r
            ∧ privacyType r = name r
            ∧ dataCategories r ≠ []
            ∧ Forall (fun d => JS.trim d = d) (dataCategories r)
            ∧ ∃ purpose, purposes r = [purpose]
                         ∧ description r = "Used for " +:+ purpose
                         ∧ JS.trim purpose = purpose)
    (privacy_records doc)
  ∧ (∀ records, privacyTypes (privacy_of_document doc) = Some records ->
       records = privacy_records doc ∧ records ≠ []).
Proof.
  split.
  - rewrite privacy_records_where. apply Forall_fmap, Forall_forall.
    intros [section category] Hin. cbn.
    apply categories_where_elem in Hin as (_ & _ & Hemits).
    pose proof Hemits as Hguard. apply emits_spec in Hguard as [Htitle Hitems].
    split; [exact Htitle|]. split; [apply trim_idempotent|]. split; [reflexivity|].
    split.
    { unfold data_types. destruct (data_type_items category); [done|discriminate]. }
    split; [apply data_types_trimmed|].
    exists (purpose_of section). split; [reflexivity|]. split; [reflexivity|].
    apply trim_idempotent.
  - intros records. unfold privacy_of_document.
    fold (purpose_sections doc). fold (privacy_records doc). cbn [privacyTypes].
    destruct (privacy_records doc); cbn; [discriminate|]. by intros [= <-].
Qed.

(** ** The outcome of [app] *)

(** [app] succeeds exactly when the check of the required fields passes and
    the lookup returns at least one entry: neither the screenshot scraping
    nor the rating enrichment can make it fail. *)
Theorem app_succeeds_iff_lookup_finds `{Platform} (options : AppOptions)
    (log0 : list request) :
  (∃ r log', app options log0 = (Ok r, log'))
  <-> required_ok options
      ∧ ∃ appData rest log1, lookup_of options log0 = (Ok (appData :: rest), log1).
Proof.
  split.
  - intros (r & log' & Hrun). unfold app, lift in Hrun. unfold bind at 1 in Hrun.
    unfold required_ok.
    destruct (validateRequiredField options _ _) as [[]|e]; [|discriminate].
    split; [reflexivity|].
    unfold bind at 1 in Hrun. fold (lookup_of options) in Hrun.
    destruct (lookup_of options log0) as [[[|appData rest]|e] log1]; [discriminate| |discriminate].
    by exists appData, rest, log1.
  - intros (Hreq & appData & rest & log1 & Hlookup).
    pose proof (screenshot_fallback_run appData (default "us" (app_country options))
                  (app_requestOptions options) log1) as Hfb.
    destruct (hasNoScreenshots appData);
      rewrite (app_run _ _ _ _ _ _ _ Hreq Hlookup Hfb);
      match goal with
      | |- context [rating_enrichment ?i ?a ?c ?o ?l] =>
          destruct (rating_enrichment_frame i a c o l) as (r & Hrun & _)
      end; rewrite Hrun; eauto.
Qed.

(** When the histogram is asked for and [ratings] succeeds, [app] returns
    the record of the screenshot step with the histogram of [ratings], and
    nothing else changed. *)
Theorem app_sets_histogram_on_success `{Platform} (options : AppOptions)
    (log0 : list request) (appData : App) (rest : list App) (log1 : list request) :
  required_ok options ->
  lookup_of options log0 = (Ok (appData :: rest), log1) ->
  app_ratings options = true ->
  ∃ a' log2,
    screenshot_fallback appData (default "us" (app_country options))
      (app_requestOptions options) log1 = (Ok a', log2)
    ∧ ∀ ratingsData log3,
        ratings (enrichment_options a' (default "us" (app_country options))
                   (app_requestOptions options)) log2 = (Ok ratingsData, log3) ->
        ∃ r,
          app options log0 = (Ok r, log3)
          ∧ histogram r = Some (ratings_histogram ratingsData)
          ∧ id r = id a'
          ∧ screenshots r = screenshots a'
          ∧ ipadScreenshots r = ipadScreenshots a'
          ∧ appletvScreenshots r = appletvScreenshots a'
          ∧ app_fields r = app_fields a'.
Proof.
  intros Hreq Hlookup Hinc.
  pose proof (screenshot_fallback_run appData (default "us" (app_country options))
                (app_requestOptions options) log1) as Hfb.
  destruct (hasNoScreenshots appData);
    (eexists; eexists; split; [exact Hfb|]); intros ratingsData log3 Hratings;
    rewrite (app_run _ _ _ _ _ _ _ Hreq Hlookup Hfb), rating_enrichment_run, Hinc, Hratings;
    (eexists; split; [reflexivity|]); cbn; auto 10.
Qed.

Lemma app_sets_histogram_on_success_witness :
  ∃ r log',
    @app sample_rated_platform (mkAppOptions (Some 479516143) None None None true None) [] =
      (Ok r, log')
    ∧ histogram r ≫= (fun h => h !! 5) = Some (JS.Num 3000)
    ∧ ipadScreenshots r = ["https://is1-ssl.mzstatic.com/image/thumb/b/552x414bb.jpg"].
Proof.
  destruct (@app_sets_histogram_on_success sample_rated_platform
              (mkAppOptions (Some 479516143) None None None true None) []
              sample_app_with_screenshot [] [])
    as (a' & log2 & Hfb & Hset); [reflexivity..|].
  vm_compute in Hfb. injection Hfb as <- <-.
  destruct (@ratings sample_rated_platform
              (enrichment_options sample_app_with_screenshot "us" None) [])
    as [[ratingsData|e] log3] eqn:Hratings; [|vm_compute in Hratings; discriminate].
  destruct (Hset ratingsData log3 Hratings) as (r & Hrun & Hh & _ & _ & Hi & _).
  exists r, log3. split; [exact Hrun|]. rewrite Hh, Hi. split; [|reflexivity].
  vm_compute in Hratings. injection Hratings as <- _. reflexivity.
Defined.

(** ** The arrays of the scraper, in the order of the page *)

Lemma screenshot_source_candidate urls el :
  screenshot_source urls el =
    match screenshot_candidate el with
    | Some url => if bool_decide (url ∈ urls) then urls else urls ++ [url]
    | None => urls
    end.
Proof.
  unfold screenshot_source, screenshot_candidate.
  destruct (Dom.attr "srcset" [el]) as [srcset|]; [|reflexivity].
  destruct (JS.truthy srcset); [|reflexivity].
  destruct (extractScreenshotUrl srcset) as [url|]; [|reflexivity].
  destruct (JS.truthy url); [|reflexivity]. cbn [andb].
  by destruct (bool_decide (url ∈ urls)).
Qed.

Lemma screenshot_loop_first_seen sources :
  ∀ urls,
    fold_left screenshot_source sources urls =
      urls ++ first_seen urls (omap screenshot_candidate sources).
Proof.
  induction sources as [|el sources IH]; intros urls; [by rewrite app_nil_r|].
  cbn [fold_left]. rewrite IH, screenshot_source_candidate. csimpl.
  destruct (screenshot_candidate el) as [url|]; [|reflexivity].
  cbn [first_seen]. destruct (bool_decide (url ∈ urls)); [reflexivity|].
  by rewrite <- app_assoc.
Qed.

Lemma first_seen_elem l :
  ∀ seen url, url ∈ first_seen seen l <-> url ∈ l ∧ url ∉ seen.
Proof.
  induction l as [|x l IH]; intros seen url; cbn [first_seen].
  - split; [by intros ?%elem_of_nil|by intros [?%elem_of_nil _]].
  - destruct (bool_decide_reflect (x ∈ seen)) as [Hx|Hx].
    + rewrite IH, elem_of_cons. split; [tauto|].
      intros [[->|Hin] Hout]; [contradiction|tauto].
    + rewrite elem_of_cons, IH, elem_of_cons, elem_of_app, list_elem_of_singleton.
      split.
      * intros [->|[Hin Hout]]; tauto.
      * intros [[->|Hin] Hout]; [tauto|].
        destruct (decide (url = x)) as [->|Hne]; tauto.
Qed.

Lemma first_seen_again l :
  ∀ seen url, url ∈ seen ∨ url ∈ l -> first_seen seen (l ++ [url]) = first_seen seen l.
Proof.
  induction l as [|x l IH]; intros seen url Hin.
  - destruct Hin as [Hin|Hin%elem_of_nil]; [|done].
    cbn. by rewrite bool_decide_eq_true_2.
  - rewrite <- app_comm_cons. cbn [first_seen].
    destruct (bool_decide_reflect (x ∈ seen)) as [Hx|Hx].
    + apply IH. destruct Hin as [Hin|[->|Hin]%elem_of_cons]; auto.
    + f_equal. apply IH. rewrite elem_of_app, list_elem_of_singleton.
      destruct Hin as [Hin|[->|Hin]%elem_of_cons]; auto.
Qed.

(** Each array that the scraper fills holds the URLs of the [source]
    elements of its device class in the order of the page, each at the place
    of its first occurrence: a URL is in the array exactly when an element
    gives it, and a later element that gives it again adds nothing. *)
Theorem scraped_urls_in_first_seen_order `{Platform} (doc : Dom.document) :
  let phone := omap screenshot_candidate
                 (screenshot_sources "shelf-grid__list--grid-type-ScreenshotPhone" doc) in
  let pad := omap screenshot_candidate
               (screenshot_sources "shelf-grid__list--grid-type-ScreenshotPad" doc) in
  let tv := omap screenshot_candidate
              (screenshot_sources "shelf-grid__list--grid-type-ScreenshotAppleTv" doc) in
  scrape_document no_screenshots doc =
    mkScreenshots (first_seen [] phone) (first_seen [] pad) (first_seen [] tv)
  ∧ (∀ url, url ∈ scraped_screenshots (scrape_document no_screenshots doc) <-> url ∈ phone)
  ∧ (∀ url, url ∈ scraped_ipadScreenshots (scrape_document no_screenshots doc) <-> url ∈ pad)
  ∧ (∀ url, url ∈ scraped_appletvScreenshots (scrape_document no_screenshots doc)
            <-> url ∈ tv)
  ∧ (∀ l url, url ∈ l -> first_seen [] (l ++ [url]) = first_seen [] l)
  ∧ (∀ appId country requestOptions log body,
       transport log (scrape_request appId country requestOptions) = Ok body ->
       cheerio_load body = Ok doc ->
       scrapeScreenshots appId country requestOptions log =
         (Ok (mkScreenshots (first_seen [] phone) (first_seen [] pad) (first_seen [] tv)),
          log ++ [scrape_request appId country requestOptions])).
Proof.
  intros phone pad tv.
  assert (Hrun : scrape_document no_screenshots doc =
            mkScreenshots (first_seen [] phone) (first_seen [] pad) (first_seen [] tv)).
  { unfold scrape_document. cbn [no_screenshots scraped_screenshots
      scraped_ipadScreenshots scraped_appletvScreenshots].
    by rewrite !screenshot_loop_first_seen. }
  split; [exact Hrun|]. rewrite Hrun.
  cbn [scraped_screenshots scraped_ipadScreenshots scraped_appletvScreenshots].
  assert (Hfresh : ∀ l url, url ∈ first_seen [] l <-> url ∈ l).
  { intros l url. rewrite first_seen_elem. split; [tauto|].
    intros Hin. split; [exact Hin|]. by intros ?%elem_of_nil. }
  split; [intros url; apply Hfresh|]. split; [intros url; apply Hfresh|].
  split; [intros url; apply Hfresh|].
  split; [intros l url Hin; apply first_seen_again; by right|].
  intros appId country requestOptions log body Hnet Hload.
  rewrite scrapeScreenshots_run. unfold scrape_outcome. by rewrite Hnet, Hload, Hrun.
Qed.

Lemma scraped_urls_in_first_seen_order_witness :
  @scrapeScreenshots (sample_app_platform []) 6756671942 "us" None [] =
    (Ok (mkScreenshots ["https://is1-ssl.mzstatic.com/image/thumb/a/392x696bb.png"] [] []),
     [scrape_request 6756671942 "us" None]).
Proof.
  destruct (@scraped_urls_in_first_seen_order (sample_app_platform []) sample_app_page)
    as (_ & _ & _ & _ & _ & Hrun).
  rewrite (Hrun 6756671942 "us" None [] "<html>...</html>"); reflexivity.
Defined.

(** ** The candidate that [extractScreenshotUrl] picks *)

Lemma sort_insert_elem {A} (cmp : A -> A -> JS.number) x l y :
  y ∈ JS.sort_insert cmp x l <-> y = x ∨ y ∈ l.
Proof.
  induction l as [|z l IH]; cbn [JS.sort_insert].
  - rewrite list_elem_of_singleton, elem_of_nil. tauto.
  - destruct (JS.positive (cmp x z)); rewrite !elem_of_cons, ?IH; tauto.
Qed.

(** Sorting keeps the elements. *)
Lemma sort_elem {A} (cmp : A -> A -> JS.number) l y : y ∈ JS.sort cmp l <-> y ∈ l.
Proof.
  induction l as [|x l IH]; cbn [JS.sort]; [reflexivity|].
  rewrite sort_insert_elem, elem_of_cons, IH. tauto.
Qed.

(** After the sort by descending width, the first entry is the first of
    the entries of largest width, when the widths are exact as doubles. *)
Lemma sort_head_widest (l : list srcset_entry) :
  Forall (fun e => entry_width e = JS.Num (width_of e)
                   ∧ 0 ≤ width_of e ≤ JS.MAX_SAFE_INTEGER) l ->
  head (JS.sort (fun a b => JS.sub (entry_width b) (entry_width a)) l) = widest l.
Proof.
  induction 1 as [|x l [Hx Hxs] Hl IH]; [reflexivity|].
  cbn [JS.sort widest]. rewrite <- IH.
  destruct (JS.sort _ l) as [|y sorted] eqn:Hsorted; [reflexivity|].
  cbn [head JS.sort_insert]. rewrite Hx.
  assert (Hy : entry_width y = JS.Num (width_of y)
               ∧ 0 ≤ width_of y ≤ JS.MAX_SAFE_INTEGER).
  { rewrite Forall_forall in Hl. apply Hl.
    apply (sort_elem (fun a b => JS.sub (entry_width b) (entry_width a))).
    rewrite Hsorted. by constructor. }
  destruct Hy as [Hy Hys]. rewrite Hy. cbn [JS.sub].
  rewrite of_integer_positive by lia.
  destruct (Z.ltb_spec 0 (width_of y - width_of x)), (Z.ltb_spec (width_of x) (width_of y));
    try lia; reflexivity.
Qed.

Lemma widest_elem l e : widest l = Some e -> e ∈ l.
Proof.
  revert e. induction l as [|x l IH]; intros e; [discriminate|]. cbn [widest].
  destruct (widest l) as [y|]; [|intros [= <-]; by constructor].
  destruct (width_of x <? width_of y); intros [= <-]; [|by constructor].
  constructor. by apply IH.
Qed.

(** An entry that is wider than the ones before it and as wide as the ones
    after it is the one that [widest] gives. *)
Lemma widest_first_largest before e after :
  Forall (fun e' => width_of e' < width_of e) before ->
  Forall (fun e' => width_of e' ≤ width_of e) after ->
  widest (before ++ e :: after) = Some e.
Proof.
  intros Hbefore Hafter. induction Hbefore as [|x before Hx _ IH].
  - rewrite app_nil_l. cbn [widest].
    destruct (widest after) as [y|] eqn:Hy; [|reflexivity].
    apply widest_elem in Hy. rewrite Forall_forall in Hafter. specialize (Hafter y Hy).
    by destruct (Z.ltb_spec (width_of e) (width_of y)); [lia|].
  - rewrite <- app_comm_cons. cbn [widest]. rewrite IH.
    by destruct (Z.ltb_spec (width_of x) (width_of e)); [|lia].
Qed.

(** *** A [srcset] as a page writes it *)

Lemma append_assoc (a b c : string) : (a +:+ b) +:+ c = a +:+ b +:+ c.
Proof.
  induction a as [|x a IH]; [reflexivity|].
  change (String x a +:+ b) with (String x (a +:+ b)).
  change (String x (a +:+ b) +:+ c) with (String x ((a +:+ b) +:+ c)).
  by rewrite IH.
Qed.

Lemma append_nil_r (a : string) : a +:+ EmptyString = a.
Proof.
  induction a as [|x a IH]; [reflexivity|].
  change (String x a +:+ EmptyString) with (String x (a +:+ EmptyString)). by rewrite IH.
Qed.

Lemma no_comma_app a b : no_comma (a +:+ b) = no_comma a && no_comma b.
Proof.
  induction a as [|x a IH]; [reflexivity|].
  change (String x a +:+ b) with (String x (a +:+ b)). cbn [no_comma].
  by rewrite IH, andb_assoc.
Qed.

Lemma plain_no_comma s : plain s = true -> no_comma s = true.
Proof.
  induction s as [|a s IH]; [reflexivity|]. cbn.
  intros [[_ Ha]%andb_true_iff Hs]%andb_true_iff. by rewrite Ha, IH.
Qed.

Lemma digits_plain ds : all_digits ds = true -> plain ds = true.
Proof.
  induction ds as [|a ds IH]; [reflexivity|]. cbn.
  intros [Ha Hds]%andb_true_iff. rewrite (IH Hds), (digit_not_space a Ha), andb_true_r.
  destruct a as [[] [] [] [] [] [] [] []]; first [discriminate Ha | reflexivity].
Qed.

Lemma write_candidate_no_comma c : well_written c -> no_comma (write_candidate c) = true.
Proof.
  intros (_ & Hurl & Hwidth). unfold write_candidate.
  rewrite no_comma_app, (plain_no_comma _ Hurl).
  destruct (candidate_width c) as [digits|]; [|reflexivity].
  destruct Hwidth as (Hd & _ & _).
  change (" " +:+ digits +:+ "w") with (String " " (digits +:+ "w")).
  cbn [no_comma andb]. rewrite no_comma_app, (plain_no_comma _ (digits_plain _ Hd)).
  reflexivity.
Qed.

(** Splitting at the commas. *)
Lemma split_char_no_comma s : no_comma s = true -> JS.split_char "," s = [s].
Proof.
  induction s as [|a s IH]; [reflexivity|]. cbn.
  intros [Ha Hs]%andb_true_iff. apply negb_true_iff in Ha. by rewrite Ha, (IH Hs).
Qed.

Lemma split_char_app s rest :
  no_comma s = true ->
  JS.split_char "," (s +:+ String "," rest) = s :: JS.split_char "," rest.
Proof.
  induction s as [|a s IH]; [reflexivity|].
  change (String a s +:+ String "," rest) with (String a (s +:+ String "," rest)).
  cbn [no_comma JS.split_char].
  intros [Ha Hs]%andb_true_iff. apply negb_true_iff in Ha. by rewrite Ha, (IH Hs).
Qed.

(** The pieces between the commas of a written [srcset]: the first
    candidate, and each of the others after a blank. *)
Lemma split_written cs :
  Forall well_written cs ->
  ∀ c pre, well_written c -> no_comma pre = true ->
    JS.split_char "," (pre +:+ write_srcset (c :: cs))
    = (pre +:+ write_candidate c) :: map (fun c' => " " +:+ write_candidate c') cs.
Proof.
  induction 1 as [|c' cs Hc' _ IH]; intros c pre Hc Hpre.
  - cbn. apply split_char_no_comma. by rewrite no_comma_app, Hpre, write_candidate_no_comma.
  - change (write_srcset (c :: c' :: cs))
      with (write_candidate c +:+ String "," (" " +:+ write_srcset (c' :: cs))).
    rewrite <- append_assoc, split_char_app
      by (by rewrite no_comma_app, Hpre, write_candidate_no_comma).
    cbn [map]. f_equal. by apply IH.
Qed.

(** Trimming and splitting at the blanks. *)
Lemma trimEnd_plain s : plain s = true -> JS.trimEnd s = s.
Proof.
  induction s as [|a s IH]; [reflexivity|]. cbn [plain JS.trimEnd].
  intros [[Ha _]%andb_true_iff Hs]%andb_true_iff. apply negb_true_iff in Ha.
  rewrite (IH Hs), Ha. by destruct s.
Qed.

Lemma trimEnd_app s t :
  t ≠ EmptyString -> JS.trimEnd t = t -> JS.trimEnd (s +:+ t) = s +:+ t.
Proof.
  intros Hne Ht. induction s as [|a s IH]; [exact Ht|].
  change (String a s +:+ t) with (String a (s +:+ t)). cbn [JS.trimEnd]. rewrite IH.
  destruct (s +:+ t) eqn:Hst; [|reflexivity]. by destruct s, t.
Qed.

Lemma plain_app a b : plain (a +:+ b) = plain a && plain b.
Proof.
  induction a as [|x a IH]; [reflexivity|].
  change (String x a +:+ b) with (String x (a +:+ b)). cbn [plain].
  by rewrite IH, !andb_assoc.
Qed.

Lemma split_spaces_plain inrun s :
  plain s = true -> JS.split_spaces_go inrun s = [s].
Proof.
  revert inrun. induction s as [|a s IH]; intros inrun; [reflexivity|].
  cbn [plain JS.split_spaces_go].
  intros [[Ha _]%andb_true_iff Hs]%andb_true_iff. apply negb_true_iff in Ha.
  by rewrite Ha, (IH false Hs).
Qed.

Lemma split_spaces_two a b :
  plain a = true -> plain b = true ->
  JS.split_spaces_go false (a +:+ String " " b) = [a; b].
Proof.
  intros Ha Hb. induction a as [|x a IH].
  - change (EmptyString +:+ String " " b) with (String " " b).
    cbn [JS.split_spaces_go JS.is_space]. by rewrite (split_spaces_plain true b Hb).
  - change (String x a +:+ String " " b) with (String x (a +:+ String " " b)).
    cbn [plain] in Ha. apply andb_true_iff in Ha as [[Hx _]%andb_true_iff Ha].
    apply negb_true_iff in Hx. cbn [JS.split_spaces_go]. by rewrite Hx, (IH Ha).
Qed.

Lemma match_width_run ds :
  all_digits ds = true -> ds ≠ EmptyString -> JS.match_width (ds +:+ "w") = Some ds.
Proof.
  intros Hds Hne. destruct ds as [|d ds]; [done|].
  pose proof Hds as Hd. cbn in Hd. apply andb_true_iff in Hd as [Hd _].
  change (String d ds +:+ "w") with (String d (ds +:+ "w")).
  cbn [JS.match_width]. rewrite Hd.
  change (String d (ds +:+ "w")) with (String d ds +:+ "w").
  by rewrite (span_digits_app _ "w" Hds eq_refl).
Qed.

(** What the code reads from a written candidate, with or without a blank
    before it: its address and its declared width. *)
Lemma parse_written (blank : bool) c :
  well_written c ->
  parse_srcset_entry ((if blank then " " else EmptyString) +:+ write_candidate c)
  = entry_of c.
Proof.
  intros (Hne & Hurl & Hwidth).
  assert (Htrim : JS.trim ((if blank then " " else EmptyString) +:+ write_candidate c)
                  = write_candidate c).
  { unfold JS.trim.
    assert (Hstart : JS.trimStart ((if blank then " " else EmptyString) +:+ write_candidate c)
                     = write_candidate c).
    { assert (Hw : JS.trimStart (write_candidate c) = write_candidate c).
      { unfold write_candidate. destruct (candidate_url c) as [|a u]; [done|].
        cbn [plain] in Hurl. apply andb_true_iff in Hurl as [[Ha _]%andb_true_iff _].
        apply negb_true_iff in Ha.
        change (String a u +:+ ?r) with (String a (u +:+ r)). cbn [JS.trimStart].
        by rewrite Ha. }
      by destruct blank. }
    rewrite Hstart. unfold write_candidate.
    destruct (candidate_width c) as [digits|].
    - destruct Hwidth as (Hd & _ & _).
      replace (candidate_url c +:+ " " +:+ digits +:+ "w")
        with ((candidate_url c +:+ " " +:+ digits) +:+ "w")
        by (by rewrite !append_assoc).
      by apply trimEnd_app.
    - rewrite append_nil_r. by apply trimEnd_plain. }
  unfold parse_srcset_entry, entry_of, declared_width. rewrite Htrim.
  unfold JS.split_spaces, write_candidate.
  destruct (candidate_width c) as [digits|].
  - destruct Hwidth as (Hd & Hdne & Hsafe).
    change (" " +:+ digits +:+ "w") with (String " " (digits +:+ "w")).
    rewrite split_spaces_two
      by (try done; by rewrite plain_app, (digits_plain _ Hd)).
    change ([candidate_url c; digits +:+ "w"] !! 1%nat ≫= JS.match_width)
      with (JS.match_width (digits +:+ "w")).
    change ([candidate_url c; digits +:+ "w"] !! 0%nat) with (Some (candidate_url c)).
    rewrite (match_width_run _ Hd Hdne).
    destruct (parseInt_digits digits Hd Hdne) as [-> Hpos].
    rewrite of_integer_safe by lia. by destruct digits.
  - rewrite append_nil_r, (split_spaces_plain false _ Hurl). reflexivity.
Qed.

Lemma srcset_entries_written cs :
  cs ≠ [] -> Forall well_written cs ->
  srcset_entries (write_srcset cs) = map entry_of cs.
Proof.
  intros Hne Hcs. destruct Hcs as [|c cs Hc Hcs]; [done|].
  unfold srcset_entries.
  change (write_srcset (c :: cs)) with (EmptyString +:+ write_srcset (c :: cs)).
  rewrite (split_written cs Hcs c EmptyString Hc eq_refl).
  cbn [map]. rewrite (parse_written false c Hc). f_equal.
  rewrite map_map. apply Forall_fmap_ext_1.
  eapply Forall_impl; [exact Hcs|]. intros c' Hc'. exact (parse_written true c' Hc').
Qed.

(** Of the candidates of a [srcset] written as pages write it, with
    addresses free of commas and white space and with widths exact as
    doubles, [extractScreenshotUrl] takes the first of those that declare
    the largest width, a candidate without descriptor declaring 0: the code
    reads each candidate as its address and its declared width, and returns
    the address of that candidate with its size token rewritten. *)
Theorem extractScreenshotUrl_picks_the_widest (before : list candidate) (best : candidate)
    (after : list candidate) :
  Forall well_written (before ++ best :: after) ->
  Forall (fun c => declared_width c < declared_width best) before ->
  Forall (fun c => declared_width c ≤ declared_width best) after ->
  map parse_srcset_entry (JS.split_char "," (write_srcset (before ++ best :: after)))
    = map (fun c => mkEntry (Some (candidate_url c)) (JS.Num (declared_width c)))
        (before ++ best :: after)
  ∧ extractScreenshotUrl (write_srcset (before ++ best :: after))
    = Some (normalize_size (candidate_url best)).
Proof.
  intros Hcs Hbefore Hafter.
  assert (Hentries : srcset_entries (write_srcset (before ++ best :: after))
                     = map entry_of (before ++ best :: after)).
  { apply srcset_entries_written; [by destruct before|exact Hcs]. }
  split; [exact Hentries|].
  unfold extractScreenshotUrl. fold (srcset_entries (write_srcset (before ++ best :: after))).
  rewrite Hentries, <- head_lookup, sort_head_widest.
  - rewrite map_app. cbn [map]. rewrite widest_first_largest.
    + cbn. apply Forall_app in Hcs as [_ Hbest]. apply Forall_cons in Hbest as [(Hne & _) _].
      by destruct (candidate_url best).
    + apply Forall_fmap. eapply Forall_impl; [exact Hbefore|]. by cbn.
    + apply Forall_fmap. eapply Forall_impl; [exact Hafter|]. by cbn.
  - apply Forall_fmap. eapply Forall_impl; [exact Hcs|].
    intros c (_ & _ & Hwidth). cbn. split; [reflexivity|].
    unfold width_of, declared_width. cbn.
    destruct (candidate_width c) as [digits|]; [|by vm_compute].
    destruct Hwidth as (Hd & _ & Hsafe). split; [|exact Hsafe].
    by apply decimal_nonneg.
Qed.

Lemma extractScreenshotUrl_picks_the_widest_witness :
  write_srcset sample_candidates =
    "https://is1-ssl.mzstatic.com/image/thumb/a/300x650bb.webp 300w, https://is1-ssl.mzstatic.com/image/thumb/b/600x1300bb-60.webp 1200w, https://is1-ssl.mzstatic.com/image/thumb/c/1x1bb.webp"
  ∧ extractScreenshotUrl (write_srcset sample_candidates)
    = Some "https://is1-ssl.mzstatic.com/image/thumb/b/392x696bb.png"
  ∧ extractScreenshotUrl "a.webp 9007199254740992w, b.webp 9007199254740993w" = Some "a.webp".
Proof.
  split; [reflexivity|]. split; [|vm_compute; reflexivity].
  destruct (extractScreenshotUrl_picks_the_widest
              [mkCandidate "https://is1-ssl.mzstatic.com/image/thumb/a/300x650bb.webp"
                 (Some "300")]
              (mkCandidate "https://is1-ssl.mzstatic.com/image/thumb/b/600x1300bb-60.webp"
                 (Some "1200"))
              [mkCandidate "https://is1-ssl.mzstatic.com/image/thumb/c/1x1bb.webp" None])
    as [_ Hbest].
  - repeat constructor; first [done | vm_compute; discriminate].
  - repeat constructor.
  - repeat constructor. vm_compute. discriminate.
  - exact Hbest.
Defined.

(** ** The size token of a screenshot URL *)

Lemma has_slash_app a b : has_slash (a +:+ b) = has_slash a || has_slash b.
Proof.
  induction a as [|c a IH]; [reflexivity|].
  change (String c a +:+ b) with (String c (a +:+ b)). cbn [has_slash].
  by rewrite IH, orb_assoc.
Qed.

Lemma strip_prefix_app p : ∀ s r, JS.strip_prefix p s = Some r -> s = p +:+ r.
Proof.
  induction p as [|a p IH]; intros s r; cbn [JS.strip_prefix].
  - by intros [= ->].
  - destruct s as [|b s]; [discriminate|].
    destruct (Ascii.eqb_spec a b) as [->|_]; [|discriminate].
    intros Hs. by rewrite (IH _ _ Hs).
Qed.

Lemma span_digits_split s : s = (JS.span_digits s).1 +:+ (JS.span_digits s).2.
Proof.
  induction s as [|a s IH]; [reflexivity|]. cbn [JS.span_digits].
  destruct (JS.is_digit a); [|reflexivity].
  destruct (JS.span_digits s) as [ds rest]. cbn in *. by rewrite IH at 1.
Qed.

Lemma digits_no_slash ds : all_digits ds = true -> has_slash ds = false.
Proof.
  induction ds as [|a ds IH]; [reflexivity|]. cbn.
  intros [Ha Hds]%andb_true_iff. rewrite (IH Hds), orb_false_r.
  destruct a as [[] [] [] [] [] [] [] []]; first [discriminate Ha | reflexivity].
Qed.

Lemma digits1_slash s r : JS.digits1 s = Some r -> has_slash s = has_slash r.
Proof.
  unfold JS.digits1. pose proof (span_digits_split s) as Hs.
  pose proof (span_digits_fst s) as Hd.
  destruct (JS.span_digits s) as [ds rest]. cbn in *.
  destruct ds as [|a ds]; [discriminate|]. intros [= <-].
  by rewrite Hs, has_slash_app, (digits_no_slash _ Hd).
Qed.

(** A size token is a slash followed by characters that are no slash. *)
Lemma size_token_shape s :
  size_token s = true -> ∃ r, s = String "/" r ∧ has_slash r = false.
Proof.
  unfold size_token.
  destruct (JS.strip_prefix "/" s) as [r0|] eqn:H0; [|discriminate]. cbn [mbind option_bind].
  destruct (JS.digits1 r0) as [r1|] eqn:H1; [|discriminate]. cbn [mbind option_bind].
  destruct (JS.strip_prefix "x" r1) as [r2|] eqn:H2; [|discriminate]. cbn [mbind option_bind].
  destruct (JS.digits1 r2) as [r3|] eqn:H3; [|discriminate]. cbn [mbind option_bind].
  destruct (JS.strip_prefix "bb" r3) as [r4|] eqn:H4; [|discriminate]. cbn [mbind option_bind].
  assert (Hopt : ∀ r5,
            match JS.strip_prefix "-" r4 with
            | Some r' => JS.digits1 r'
            | None => Some r4
            end = Some r5 -> has_slash r4 = has_slash r5).
  { intros r5. destruct (JS.strip_prefix "-" r4) as [r'|] eqn:Hdash.
    - intros Hr5. apply strip_prefix_app in Hdash as ->.
      rewrite has_slash_app. cbn. by apply digits1_slash.
    - by intros [= ->]. }
  destruct (match JS.strip_prefix "-" r4 with
            | Some r' => JS.digits1 r'
            | None => Some r4
            end) as [r5|]; [|discriminate]. cbn [mbind option_bind].
  specialize (Hopt r5 eq_refl).
  destruct (JS.strip_prefix "." r5) as [ext|] eqn:H6; [|discriminate].
  intros Hext%bool_decide_eq_true.
  exists r0. split; [by apply strip_prefix_app in H0|].
  rewrite (digits1_slash _ _ H1).
  apply strip_prefix_app in H2 as ->. rewrite has_slash_app. cbn.
  rewrite (digits1_slash _ _ H3).
  apply strip_prefix_app in H4 as ->. rewrite has_slash_app. cbn.
  rewrite Hopt.
  apply strip_prefix_app in H6 as ->. rewrite has_slash_app. cbn.
  repeat (apply elem_of_cons in Hext as [->|Hext]; [reflexivity|]).
  by apply elem_of_nil in Hext.
Qed.

Lemma normalize_size_unfold url :
  normalize_size url =
    if size_token url then "/392x696bb.png"
    else match url with
         | String a url' => String a (normalize_size url')
         | EmptyString => EmptyString
         end.
Proof. by destruct url. Qed.

Lemma normalize_size_token prefix token :
  size_token token = true ->
  normalize_size (prefix +:+ token) = prefix +:+ "/392x696bb.png".
Proof.
  intros Htoken. induction prefix as [|a prefix IH].
  - change (EmptyString +:+ token) with token.
    by rewrite normalize_size_unfold, Htoken.
  - change (String a prefix +:+ token) with (String a (prefix +:+ token)).
    rewrite normalize_size_unfold.
    destruct (size_token (String a (prefix +:+ token))) eqn:Hearly.
    + apply size_token_shape in Hearly as (r & [= -> <-] & Hslash).
      rewrite has_slash_app in Hslash.
      apply size_token_shape in Htoken as (r' & -> & _). cbn in Hslash.
      by rewrite orb_true_r in Hslash.
    + by rewrite IH.
Qed.

Lemma normalize_size_cases url :
  normalize_size url = url
  ∨ ∃ prefix token, url = prefix +:+ token ∧ size_token token = true.
Proof.
  induction url as [|a url IH]; [by left|].
  destruct (size_token (String a url)) eqn:Htoken.
  - right. by exists EmptyString, (String a url).
  - destruct IH as [IH|(prefix & token & -> & Htok)].
    + left. by rewrite normalize_size_unfold, Htoken, IH.
    + right. by exists (String a prefix), token.
Qed.

(** The rewriting of the size token:
    - a URL that ends with a size token gets the canonical token in its
      place, and what precedes the token is kept;
    - a URL that does not end with a size token is returned as it is;
    - a rewritten URL is rewritten to itself, so the URL that
      [extractScreenshotUrl] returns is never changed by a second pass. *)
Theorem normalize_size_rewrites_the_token :
  (∀ prefix token, size_token token = true ->
     normalize_size (prefix +:+ token) = prefix +:+ "/392x696bb.png")
  ∧ (∀ url, (∀ prefix token, url = prefix +:+ token -> size_token token = false) ->
       normalize_size url = url)
  ∧ (∀ url, normalize_size (normalize_size url) = normalize_size url)
  ∧ (∀ srcset url, extractScreenshotUrl srcset = Some url ->
       normalize_size url = url ∧ url ≠ EmptyString).
Proof.
  assert (Hidem : ∀ url, normalize_size (normalize_size url) = normalize_size url).
  { intros url. destruct (normalize_size_cases url) as [Hsame|(prefix & token & -> & Htok)].
    - by rewrite !Hsame.
    - rewrite (normalize_size_token _ _ Htok). by apply normalize_size_token. }
  split; [apply normalize_size_token|]. split; [|split; [exact Hidem|]].
  - intros url Hnone.
    destruct (normalize_size_cases url) as [Hsame|(prefix & token & Hurl & Htok)];
      [exact Hsame|]. by rewrite (Hnone _ _ Hurl) in Htok.
  - intros srcset url. unfold extractScreenshotUrl.
    destruct (_ ≫= entry_url) as [raw|]; [|discriminate].
    destruct raw as [|a raw]; [discriminate|]. cbn [JS.truthy]. intros [= <-].
    split; [exact (Hidem (String a raw))|].
    change (normalize_size (String a raw) ≠ EmptyString).
    rewrite normalize_size_unfold. by destruct (size_token (String a raw)).
Qed.

Lemma normalize_size_rewrites_the_token_witness :
  normalize_size "https://is1-ssl.mzstatic.com/image/thumb/a/600x1300bb-60.webp"
  = "https://is1-ssl.mzstatic.com/image/thumb/a/392x696bb.png"
  ∧ normalize_size "https://is1-ssl.mzstatic.com/image/thumb/a/600x1300.gif"
    = "https://is1-ssl.mzstatic.com/image/thumb/a/600x1300.gif".
Proof.
  destruct normalize_size_rewrites_the_token as (Htoken & _).
  split; [|vm_compute; reflexivity].
  exact (Htoken "https://is1-ssl.mzstatic.com/image/thumb/a" "/600x1300bb-60.webp" eq_refl).
Defined.

(** ** The keys of the histogram on any page *)

(** Whatever the page holds, the histogram of [parseRatings] is never a
    partial map: the keys 1 to 5 are all there, and no key above 5 is. The
    count of [k] stars is the number read in the per-star element at
    position [5 - k] when there is one, and 0 otherwise; a page with more
    than five per-star elements adds the keys 0, -1, ... for the further
    ones. *)
Theorem ratings_histogram_never_partial `{Platform} (html : string) (doc : Dom.document) :
  cheerio_load html = Ok doc ->
  ∃ r,
    parseRatings html = Ok r
    ∧ (∀ k, 1 ≤ k ≤ 5 -> is_Some (ratings_histogram r !! k))
    ∧ (∀ k, 5 < k -> ratings_histogram r !! k = None)
    ∧ (∀ k, k ≤ 5 ->
         ratings_histogram r !! k =
           match per_star_elements doc !! Z.to_nat (5 - k) with
           | Some el => Some (JS.parseInt (Dom.text [el]))
           | None => if decide (1 ≤ k) then Some (JS.Num 0) else None
           end)
    ∧ (∀ k, k ≤ 0 ->
         is_Some (ratings_histogram r !! k)
         <-> (Z.to_nat (5 - k) < length (per_star_elements doc))%nat).
Proof.
  intros Hload.
  destruct (parseRatings html) as [r|e] eqn:Hparse;
    [|unfold parseRatings in Hparse; rewrite Hload in Hparse; discriminate].
  exists r. split; [reflexivity|].
  pose proof (parseRatings_histogram html doc r Hload Hparse) as Hh.
  assert (Hlookup : ∀ k, ratings_histogram r !! k =
            if decide (k ≤ 5)
            then match per_star_elements doc !! Z.to_nat (5 - k) with
                 | Some el => Some (JS.parseInt (Dom.text [el]))
                 | None => empty_histogram !! k
                 end
            else empty_histogram !! k).
  { intros k. rewrite Hh, histogram_reduce_lookup, list_lookup_fmap.
    replace (5 - k - 0) with (5 - k) by lia.
    repeat case_decide; try lia; try reflexivity.
    destruct (per_star_elements doc !! Z.to_nat (5 - k)); reflexivity. }
  split; [|split; [|split]].
  - intros k Hk. rewrite Hlookup, decide_True by lia.
    destruct (per_star_elements doc !! _); [eauto|].
    rewrite empty_histogram_lookup, decide_True by lia. eauto.
  - intros k Hk. rewrite Hlookup, decide_False by lia.
    rewrite empty_histogram_lookup, decide_False by lia. reflexivity.
  - intros k Hk. rewrite Hlookup, decide_True by lia.
    destruct (per_star_elements doc !! _); [reflexivity|].
    rewrite empty_histogram_lookup. repeat case_decide; try lia; reflexivity.
  - intros k Hk. rewrite Hlookup, decide_True by lia.
    destruct (per_star_elements doc !! Z.to_nat (5 - k)) as [el|] eqn:Hel.
    + apply lookup_lt_Some in Hel. split; [intros _; exact Hel|eauto].
    + apply lookup_ge_None in Hel.
      rewrite empty_histogram_lookup, decide_False by lia.
      split; [by intros [? ?]|lia].
Qed.

Lemma ratings_histogram_never_partial_witness :
  ∃ r,
    @parseRatings (sample_ratings_platform six_star_counts)
      (sample_ratings_html six_star_counts) = Ok r
    ∧ ratings_histogram r !! 5 = Some (JS.Num 6)
    ∧ ratings_histogram r !! 0 = Some (JS.Num 1)
    ∧ ratings_histogram r !! 6 = None.
Proof.
  destruct (@ratings_histogram_never_partial (sample_ratings_platform six_star_counts)
              (sample_ratings_html six_star_counts) (sample_ratings_page six_star_counts)
              eq_refl)
    as (r & Hrun & _ & Habove & Hkey & _).
  exists r. split; [exact Hrun|].
  split; [by rewrite (Hkey 5)|]. split; [by rewrite (Hkey 0)|].
  by apply Habove.
Defined.
